(** * dearMerge: the conflict engine of [main.py]

    A shallow embedding of the conflict parser
    ([GitRepository.parse_conflict_markers]), the diff helpers
    ([DiffHighlighter]) and the resolution methods of [GitMergeApp],
    followed by the properties of the specification that concern them.

    Conventions.
    - A Python [str] is a [string]; a character is a code point below 256,
      and the line boundaries of [str.splitlines] are the ones in that range.
    - Python integers are [Z]; the cursor of the parser, which only counts
      upwards from 0, is a [nat], converted when it is stored in a record.
    - A [ConflictMarkers] object living in [self.current_conflicts] is
      designated by its position in that list: the methods that receive
      the object receive the position here, and a field assignment is an
      update of the list at that position.
    - The DearPyGui value registry ([dpg.set_value] / [dpg.get_value]) is a
      finite map from widget tags to text. *)

From Stdlib Require Import ZArith Ascii String List Lia Sorted.
From stdpp Require Import base tactics option list strings gmap pretty.

Local Open Scope Z_scope.

(** ** Python text primitives *)

Module Py.

(** [line.startswith(p)] *)
Definition startswith (line p : string) : bool := String.prefix p line.

(** The line boundaries recognised by [str.splitlines], among the code
    points below 256: LF, VT, FF, CR, FS, GS, RS and NEL. *)
Definition is_linebreak (c : ascii) : bool :=
  let n := Ascii.nat_of_ascii c in
  ((10 <=? n)%nat && (n <=? 13)%nat)
  || ((28 <=? n)%nat && (n <=? 30)%nat)
  || (n =? 133)%nat.

Definition CR : ascii := Ascii.ascii_of_nat 13.
Definition LF : ascii := Ascii.ascii_of_nat 10.

(** [splitlines_from cur s]: the lines of [s], where [cur] holds the
    characters of the line being read. A boundary closes the line (CR LF
    counts as one boundary); the end of the text closes it only when it
    is not empty, so a final boundary opens no further line. *)
Fixpoint splitlines_from (cur s : string) : list string :=
  match s with
  | EmptyString => if String.eqb cur "" then [] else [cur]
  | String c rest =>
      if is_linebreak c then
        match rest with
        | String c' rest' =>
            if Ascii.eqb c CR && Ascii.eqb c' LF
            then cur :: splitlines_from "" rest'
            else cur :: splitlines_from "" rest
        | EmptyString => [cur]
        end
      else splitlines_from (cur +:+ String c "") rest
  end.

(** [content.splitlines()] *)
Definition splitlines (content : string) : list string :=
  splitlines_from "" content.

(** ['\n'.join(lines)] *)
Definition join_lines (lines : list string) : string :=
  String.concat (String LF "") lines.

(** [line[1:]] *)
Definition drop_first (line : string) : string :=
  match line with
  | EmptyString => ""
  | String _ rest => rest
  end.

(** [l[:k]] for a Python integer [k]: a negative bound counts from the
    end of the list, and bounds are clamped to the list. *)
Definition slice_to {A} (l : list A) (k : Z) : list A :=
  if k <? 0 then take (Z.to_nat (Z.of_nat (length l) + k)) l
  else take (Z.to_nat k) l.

(** [l[k:]] *)
Definition slice_from {A} (l : list A) (k : Z) : list A :=
  if k <? 0 then drop (Z.to_nat (Z.of_nat (length l) + k)) l
  else drop (Z.to_nat k) l.

End Py.

(** ** Records of the program *)

(** [class ConflictMarkers]. [end] is a keyword, the field is [end_]. *)
Record ConflictMarkers := mkConflictMarkers {
  start : Z;
  middle : Z;
  end_ : Z;
  base_content : list string;
  local_content : list string;
  remote_content : list string;
  conflict_id : Z;
  is_resolved : bool;
  resolved_with : option string;
  original_start : Z;
  original_end : Z;
  resolved_lines : option (list string);
  rejected_lines : option (list string)
}.

(** The constructor call of the source, with the dataclass defaults for
    the fields it does not pass. *)
Definition ConflictMarkers_new (start middle end_ : Z)
    (base_content local_content remote_content : list string)
    (conflict_id : Z) : ConflictMarkers :=
  {| start := start; middle := middle; end_ := end_;
     base_content := base_content; local_content := local_content;
     remote_content := remote_content; conflict_id := conflict_id;
     is_resolved := false; resolved_with := None;
     original_start := 0; original_end := 0;
     resolved_lines := None; rejected_lines := None |}.

(** [class DiffHighlight] *)
Record DiffHighlight := mkDiffHighlight {
  start_line : Z;
  end_line : Z;
  highlight_type : string;
  content : list string
}.

(** ** The conflict parser *)

Module Parser.

Definition is_start (l : string) : bool := Py.startswith l "<<<<<<<".
Definition is_base (l : string) : bool := Py.startswith l "|||||||".
Definition is_middle (l : string) : bool := Py.startswith l "=======".
Definition is_end (l : string) : bool := Py.startswith l ">>>>>>>".

(** The line that ends the local lines: a base or a middle separator. *)
Definition is_separator (l : string) : bool := is_base l || is_middle l.

(** One inner loop of the parser,
    [while i < len(lines) and not stop(lines[i]): acc.append(lines[i]); i += 1],
    run on the lines from the cursor on: the lines appended, and the
    lines left from the new cursor on. *)
Fixpoint scan (stop : string → bool) (ls : list string)
  : list string * list string :=
  match ls with
  | [] => ([], [])
  | l :: rest =>
      if stop l then ([], ls)
      else let '(taken, remaining) := scan stop rest in
           (l :: taken, remaining)
  end.

(** The body of [if line.startswith('<<<<<<<')], entered with the start
    marker at index [start_idx] and [rest] the lines after it. Returns
    the region appended to [conflicts], if any, and the cursor at the
    end of the body: its index and the lines from it on. *)
Definition parse_block (start_idx : nat) (rest : list string)
    (conflict_id : Z)
  : option ConflictMarkers * nat * list string :=
  let i := S start_idx in
  let '(local_content, r1) := scan is_separator rest in
  let i := (i + length local_content)%nat in
  let '(base_content, i, r2) :=
    match r1 with
    | l :: r1' =>
        if is_base l then
          let '(base_content, r2) := scan is_middle r1' in
          (base_content, (S i + length base_content)%nat, r2)
        else ([], i, r1)
    | [] => ([], i, r1)
    end in
  match r2 with
  | l :: r2' =>
      if is_middle l then
        let middle_idx := i in
        let '(remote_content, r3) := scan is_end r2' in
        let i := (S i + length remote_content)%nat in
        match r3 with
        | l' :: _ =>
            if is_end l' then
              (Some (ConflictMarkers_new (Z.of_nat start_idx)
                       (Z.of_nat middle_idx) (Z.of_nat i)
                       base_content local_content remote_content
                       conflict_id), i, r3)
            else (None, i, r3)
        | [] => (None, i, r3)
        end
      else (None, i, r2)
  | [] => (None, i, r2)
  end.

(** The outer [while i < len(lines)] loop. The cursor is the index [i]
    together with the lines from [i] on; every turn ends with [i += 1].
    [fuel] bounds the number of turns. *)
Fixpoint parse_loop (fuel : nat) (i : nat) (ls : list string)
    (conflict_id : Z) : list ConflictMarkers :=
  match fuel with
  | O => []
  | S fuel' =>
      match ls with
      | [] => []
      | line :: rest =>
          if is_start line then
            match parse_block i rest conflict_id with
            | (Some c, i', r) =>
                c :: parse_loop fuel' (S i') (tail r) (conflict_id + 1)
            | (None, i', r) =>
                parse_loop fuel' (S i') (tail r) conflict_id
            end
          else parse_loop fuel' (S i) rest conflict_id
      end
  end.

(** The loops of the source over an already split text. Every turn of
    the outer loop moves the cursor by at least one line, so
    [length lines] turns are enough (see [parse_loop_fuel]). *)
Definition parse_lines (lines : list string) : list ConflictMarkers :=
  parse_loop (length lines) 0 lines 0.

(** [GitRepository.parse_conflict_markers] *)
Definition parse_conflict_markers (content : string)
  : list ConflictMarkers :=
  parse_lines (Py.splitlines content).

End Parser.

(** ** The diff helpers ([class DiffHighlighter]) and the application

    [difflib.unified_diff] belongs to the Python standard library, not to
    the program: the section takes it as a parameter.
    [unified_diff a b n] stands for
    [list(difflib.unified_diff(a, b, lineterm='', n=n))]. *)

(** The three values [resolution] takes at the call sites of the program:
    ['local'], ['remote'] and ['base']. *)
Inductive Resolution := res_local | res_remote | res_base.

Definition Resolution_str (r : Resolution) : string :=
  match r with
  | res_local => "local"
  | res_remote => "remote"
  | res_base => "base"
  end.

(** [resolution.upper()] *)
Definition Resolution_upper (r : Resolution) : string :=
  match r with
  | res_local => "LOCAL"
  | res_remote => "REMOTE"
  | res_base => "BASE"
  end.

(** *** The regular expression of [generate_line_diff]

    [re.search(r'-(\d+)(?:,(\d+))? \+(\d+)(?:,(\d+))?', line)], then
    [int(match.group(3))]. *)
Module HunkHeader.

Definition is_digit (c : ascii) : bool :=
  let n := Ascii.nat_of_ascii c in (48 <=? n)%nat && (n <=? 57)%nat.

(** The longest run of digits at the head of [s], and what follows. *)
Fixpoint digits (s : string) : string * string :=
  match s with
  | String c rest =>
      if is_digit c then let '(d, r) := digits rest in (String c d, r)
      else ("", s)
  | EmptyString => ("", "")
  end.

(** [" \+(\d+)"] at the head of [s]: group 3. What follows it is
    optional and cannot make the match fail. *)
Definition new_range (s : string) : option string :=
  match s with
  | String " " (String "+" r) =>
      let '(d, _) := digits r in
      if String.eqb d "" then None else Some d
  | _ => None
  end.

(** The whole pattern anchored at the head of [s]. A run of digits is
    followed in the pattern by a character that is not a digit, so a
    shorter run never matches where the longest one does not; the
    optional group is tried first, then skipped. *)
Definition match_here (s : string) : option string :=
  match s with
  | String "-" r =>
      let '(d1, r1) := digits r in
      if String.eqb d1 "" then None
      else
        let with_group :=
          match r1 with
          | String "," r1' =>
              let '(d2, r2) := digits r1' in
              if String.eqb d2 "" then None else new_range r2
          | _ => None
          end in
        match with_group with
        | Some g => Some g
        | None => new_range r1
        end
  | _ => None
  end.

(** [re.search]: the leftmost position where the pattern matches. *)
Fixpoint search (s : string) : option string :=
  match match_here s with
  | Some g => Some g
  | None =>
      match s with
      | String _ rest => search rest
      | EmptyString => None
      end
  end.

(** [int(d)] for a run of digits [d]. *)
Definition int (d : string) : Z :=
  fold_left (λ acc c, 10 * acc + (Z.of_nat (Ascii.nat_of_ascii c) - 48))
            (list_ascii_of_string d) 0.

End HunkHeader.

(** The files and the [git] command, as the program sees them. *)
Inductive io_result := Returns (out : string) | Raises (message : string).

Record World := mkWorld {
  (** [(repo_path / file_path).read_text(encoding='utf-8')] *)
  read_text : string → string → io_result;
  (** [git show :<stage>:<file_path>] run in [repo_path]: its output when
      the return code is 0. The output is taken to be text that decodes:
      on other bytes [subprocess.run(text=True)] raises, which
      [get_file_versions] does not catch; such a run is outside this
      record. *)
  git_show : string → Z → string → option string
}.

Record GitRepository := mkGitRepository { repo_path : string }.

(** [class GitMergeApp]: the attributes read or written by the methods
    below, and the value registry of DearPyGui. *)
Record GitMergeApp := mkGitMergeApp {
  git_repo : option GitRepository;
  current_file : option string;
  current_conflicts : list ConflictMarkers;
  original_conflicts : list ConflictMarkers;
  file_versions : gmap string string;
  selected_conflict_index : Z;
  original_content : string;
  show_rejection_preview : bool;
  dpg : gmap string string
}.

Definition with_conflicts (s : GitMergeApp) (cs : list ConflictMarkers)
  : GitMergeApp :=
  mkGitMergeApp (git_repo s) (current_file s) cs (original_conflicts s)
    (file_versions s) (selected_conflict_index s) (original_content s)
    (show_rejection_preview s) (dpg s).

Definition with_selected (s : GitMergeApp) (i : Z) : GitMergeApp :=
  mkGitMergeApp (git_repo s) (current_file s) (current_conflicts s)
    (original_conflicts s) (file_versions s) i (original_content s)
    (show_rejection_preview s) (dpg s).

(** [dpg.set_value(tag, value)] *)
Definition set_value (s : GitMergeApp) (tag value : string) : GitMergeApp :=
  mkGitMergeApp (git_repo s) (current_file s) (current_conflicts s)
    (original_conflicts s) (file_versions s) (selected_conflict_index s)
    (original_content s) (show_rejection_preview s)
    (<[tag := value]> (dpg s)).

(** [dpg.get_value(tag)]; the text widgets are created empty. *)
Definition get_value (s : GitMergeApp) (tag : string) : string :=
  default "" (dpg s !! tag).

(** The Document: the text of the working-copy widget. *)
Definition local_text (s : GitMergeApp) : string := get_value s "local_text".

(** [GitMergeApp.update_status] *)
Definition update_status (s : GitMergeApp) (message : string) : GitMergeApp :=
  set_value s "status_text" message.

(** The assignments of [_resolve_single_conflict] to the conflict. *)
Definition mark_resolved_with (c : ConflictMarkers) (resolution : Resolution)
    (chosen_content rejected_content : list string) : ConflictMarkers :=
  mkConflictMarkers (start c) (middle c) (end_ c) (base_content c)
    (local_content c) (remote_content c) (conflict_id c)
    true (Some (Resolution_str resolution))
    (original_start c) (original_end c)
    (Some chosen_content) (Some rejected_content).

(** The assignments of [revert_conflict] to the conflict. *)
Definition mark_unresolved (c : ConflictMarkers) : ConflictMarkers :=
  mkConflictMarkers (start c) (middle c) (end_ c) (base_content c)
    (local_content c) (remote_content c) (conflict_id c)
    false None (original_start c) (original_end c) None None.

(** The body of the loop of [_update_working_copy_with_resolution] for one
    [other_conflict]. *)
Definition rebase (conflict : ConflictMarkers) (lines_removed : Z)
    (other_conflict : ConflictMarkers) : ConflictMarkers :=
  if negb (conflict_id other_conflict =? conflict_id conflict)
     && (start other_conflict >? end_ conflict)
  then
    mkConflictMarkers (start other_conflict - lines_removed)
      (middle other_conflict - lines_removed)
      (end_ other_conflict - lines_removed)
      (base_content other_conflict) (local_content other_conflict)
      (remote_content other_conflict) (conflict_id other_conflict)
      (is_resolved other_conflict) (resolved_with other_conflict)
      (original_start other_conflict) (original_end other_conflict)
      (resolved_lines other_conflict) (rejected_lines other_conflict)
  else other_conflict.

(** The backup made by [load_conflicted_file] of one conflict. *)
Definition backup (conflict : ConflictMarkers) : ConflictMarkers :=
  mkConflictMarkers (start conflict) (middle conflict) (end_ conflict)
    (base_content conflict) (local_content conflict)
    (remote_content conflict) (conflict_id conflict)
    false None (start conflict) (end_ conflict) None None.

Section Program.

Variable unified_diff : list string → list string → nat → list string.

(** *** [DiffHighlighter.generate_line_diff] *)

(** One turn of [for line in diff_lines], on the pair of [current_line]
    and [highlights]. *)
Definition line_diff_step (st : Z * list DiffHighlight) (line : string)
  : Z * list DiffHighlight :=
  let '(current_line, highlights) := st in
  if Py.startswith line "@@" then
    match HunkHeader.search line with
    | Some g => (HunkHeader.int g - 1, highlights)
    | None => (current_line, highlights)
    end
  else if Py.startswith line "-" then
    (current_line,
     highlights ++ [mkDiffHighlight current_line (current_line + 1)
                      "removed" [Py.drop_first line]])
  else if Py.startswith line "+" then
    (current_line + 1,
     highlights ++ [mkDiffHighlight current_line (current_line + 1)
                      "added" [Py.drop_first line]])
  else if negb (Py.startswith line "@@") && negb (Py.startswith line "\")
  then (current_line + 1, highlights)
  else (current_line, highlights).

Definition generate_line_diff (chosen_lines rejected_lines : list string)
  : list DiffHighlight :=
  match chosen_lines, rejected_lines with
  | [], [] => []
  | _, _ =>
      let diff_lines := unified_diff rejected_lines chosen_lines 0 in
      snd (fold_left line_diff_step diff_lines (0, []))
  end.

(** *** [DiffHighlighter.create_rejection_preview] *)

(** One turn of [for line in differ], on the pair of [in_diff] and
    [preview_lines]. *)
Definition preview_step (st : bool * list string) (line : string)
  : bool * list string :=
  let '(in_diff, preview_lines) := st in
  if Py.startswith line "@@" then
    (true, preview_lines ++ ["// " +:+ line])
  else if Py.startswith line "-" then
    (in_diff, preview_lines ++ ["// CHOSEN:   " +:+ Py.drop_first line])
  else if Py.startswith line "+" then
    (in_diff, preview_lines ++ ["// REJECTED: " +:+ Py.drop_first line])
  else if Py.startswith line " " && in_diff then
    (in_diff, preview_lines ++ ["//          " +:+ Py.drop_first line])
  else (in_diff, preview_lines).

Definition create_rejection_preview
    (chosen_content rejected_content : list string) : string :=
  match rejected_content with
  | [] => "// No alternative content to show"
  | _ :: _ =>
      let preview_lines := ["// ===== REJECTED ALTERNATIVE ====="] in
      let preview_lines :=
        if bool_decide (chosen_content = rejected_content) then
          (preview_lines ++ ["// (Identical to chosen content)"])
            ++ map (λ line, "// " +:+ line) rejected_content
        else
          let differ := unified_diff chosen_content rejected_content 1 in
          snd (fold_left preview_step differ (false, preview_lines)) in
      Py.join_lines (preview_lines ++ ["// ===== END REJECTED ====="])
  end.

(** *** [GitMergeApp]

    [update_conflict_display] only writes the counters and the list
    widget, which no method reads back; its calls are left out. *)

(** [GitRepository.get_file_versions] *)
Definition get_file_versions (w : World) (repo : GitRepository)
    (file_path : string) : gmap string string :=
  let versions : gmap string string := ∅ in
  let versions :=
    match git_show w (repo_path repo) 1 file_path with
    | Some out => <["base" := out]> versions
    | None => versions
    end in
  let versions :=
    match git_show w (repo_path repo) 2 file_path with
    | Some out => <["local" := out]> versions
    | None => versions
    end in
  match git_show w (repo_path repo) 3 file_path with
  | Some out => <["remote" := out]> versions
  | None => versions
  end.

(** [GitMergeApp.load_conflicted_file]. An exception raised by the read
    leaves the [try] block at that point. *)
Definition load_conflicted_file (w : World) (s : GitMergeApp)
    (file_path : string) : GitMergeApp :=
  match git_repo s with
  | None => s
  | Some repo =>
      let s := set_value s "current_file_label" file_path in
      let versions := get_file_versions w repo file_path in
      match read_text w (repo_path repo) file_path with
      | Raises e =>
          update_status
            (mkGitMergeApp (git_repo s) (Some file_path)
               (current_conflicts s) (original_conflicts s) versions
               (selected_conflict_index s) (original_content s)
               (show_rejection_preview s) (dpg s))
            ("Error loading file: " +:+ e)
      | Returns working_copy =>
          let conflicts := Parser.parse_conflict_markers working_copy in
          let s :=
            mkGitMergeApp (git_repo s) (Some file_path)
              conflicts (map backup conflicts) versions
              (selected_conflict_index s) working_copy
              (show_rejection_preview s) (dpg s) in
          let s := set_value s "base_text"
                     (default "Not available" (versions !! "base")) in
          let s := set_value s "local_text" working_copy in
          let s := set_value s "remote_text"
                     (default "Not available" (versions !! "remote")) in
          let s := set_value s "rejection_preview"
                     "// Make a choice to see rejected alternative" in
          let s := with_selected s
                     (match conflicts with [] => -1 | _ :: _ => 0 end) in
          update_status s
            ("Loaded " +:+ file_path +:+ " with "
             +:+ pretty (length conflicts) +:+ " conflicts")
      end
  end.

(** [GitMergeApp._update_working_copy_with_resolution]. The loop leaves
    [conflict] itself alone (its id is its own), so the [conflict.end]
    it compares with is the same at every turn. *)
Definition _update_working_copy_with_resolution (s : GitMergeApp)
    (conflict : ConflictMarkers) (chosen_content : list string)
  : GitMergeApp :=
  let content := get_value s "local_text" in
  let lines := Py.splitlines content in
  let new_lines :=
    Py.slice_to lines (start conflict)
      ++ chosen_content
      ++ Py.slice_from lines (end_ conflict + 1) in
  let lines_removed :=
    (end_ conflict - start conflict + 1)
    - Z.of_nat (length chosen_content) in
  let s :=
    with_conflicts s (map (rebase conflict lines_removed)
                          (current_conflicts s)) in
  set_value s "local_text" (Py.join_lines new_lines).

(** [GitMergeApp._show_rejection_preview] *)
Definition _show_rejection_preview (s : GitMergeApp)
    (chosen_content rejected_content : list string)
    (resolution : Resolution) : GitMergeApp :=
  if negb (show_rejection_preview s) then s
  else
    let preview_text :=
      create_rejection_preview chosen_content rejected_content in
    let header :=
      [ "// RESOLUTION: Chose " +:+ Resolution_upper resolution;
        "// Conflict " +:+ pretty (selected_conflict_index s + 1)
          +:+ " resolved";
        "// " +:+ "========================================";
        "" ] in
    let full_preview :=
      Py.join_lines header +:+ String Py.LF "" +:+ preview_text in
    set_value s "rejection_preview" full_preview.

(** [GitMergeApp._resolve_single_conflict], for the conflict at position
    [k] of [self.current_conflicts]. *)
Definition _resolve_single_conflict (s : GitMergeApp) (k : nat)
    (resolution : Resolution) : GitMergeApp :=
  match current_conflicts s !! k with
  | None => s
  | Some conflict =>
      let '(chosen_content, rejected_content) :=
        match resolution with
        | res_local => (local_content conflict, remote_content conflict)
        | res_remote => (remote_content conflict, local_content conflict)
        | res_base =>
            (base_content conflict,
             local_content conflict ++ remote_content conflict)
        end in
      let conflict :=
        mark_resolved_with conflict resolution
          chosen_content rejected_content in
      let s := with_conflicts s (<[k := conflict]> (current_conflicts s)) in
      let s := _update_working_copy_with_resolution s conflict
                 chosen_content in
      let s := _show_rejection_preview s chosen_content rejected_content
                 resolution in
      update_status s
        ("Resolved conflict " +:+ pretty (selected_conflict_index s + 1)
         +:+ " with " +:+ Resolution_str resolution)
  end.

(** The guard shared by the [accept_*_conflict] methods and
    [revert_conflict]. *)
Definition selection_valid (s : GitMergeApp) : bool :=
  (selected_conflict_index s >=? 0)
  && (selected_conflict_index s <? Z.of_nat (length (current_conflicts s))).

(** [GitMergeApp.accept_local_conflict] *)
Definition accept_local_conflict (s : GitMergeApp) : GitMergeApp :=
  if selection_valid s
  then _resolve_single_conflict s (Z.to_nat (selected_conflict_index s))
       res_local
  else s.

(** [GitMergeApp.accept_remote_conflict] *)
Definition accept_remote_conflict (s : GitMergeApp) : GitMergeApp :=
  if selection_valid s
  then _resolve_single_conflict s (Z.to_nat (selected_conflict_index s))
       res_remote
  else s.

(** [GitMergeApp.accept_base_conflict] *)
Definition accept_base_conflict (s : GitMergeApp) : GitMergeApp :=
  if selection_valid s
  then _resolve_single_conflict s (Z.to_nat (selected_conflict_index s))
       res_base
  else s.

(** The button pressed for a given variant. *)
Definition accept_conflict (resolution : Resolution) (s : GitMergeApp)
  : GitMergeApp :=
  match resolution with
  | res_local => accept_local_conflict s
  | res_remote => accept_remote_conflict s
  | res_base => accept_base_conflict s
  end.

(** [GitMergeApp.revert_conflict]; [None] is the [IndexError] of
    [self.original_conflicts[self.selected_conflict_index]]. *)
Definition revert_conflict (w : World) (s : GitMergeApp)
  : option GitMergeApp :=
  if selection_valid s then
    let k := Z.to_nat (selected_conflict_index s) in
    match current_conflicts s !! k, original_conflicts s !! k with
    | Some conflict, Some original =>
        let s :=
          with_conflicts s
            (<[k := mark_unresolved conflict]> (current_conflicts s)) in
        let s :=
          match current_file s with
          | Some file => load_conflicted_file w s file
          | None => s
          end in
        Some (update_status s
                ("Reverted conflict "
                 +:+ pretty (selected_conflict_index s + 1)))
    | _, _ => None
    end
  else Some s.

(** One turn of the loop of [resolve_with_version], for the conflict at
    position [k]. *)
Definition resolve_turn (version : Resolution) (s : GitMergeApp) (k : nat)
  : GitMergeApp :=
  match current_conflicts s !! k with
  | Some conflict =>
      if is_resolved conflict then s
      else _resolve_single_conflict s k version
  | None => s
  end.

(** [GitMergeApp.resolve_with_version] *)
Definition resolve_with_version (s : GitMergeApp) (version : Resolution)
  : GitMergeApp :=
  match current_conflicts s with
  | [] => s
  | _ :: _ =>
      let s :=
        fold_left (resolve_turn version)
          (seq 0 (length (current_conflicts s))) s in
      update_status s
        ("Resolved all conflicts with " +:+ Resolution_str version)
  end.

(** [GitMergeApp.on_conflict_selected], from the point where the number
    [conflict_num] has been read off the selected item; the
    [IndexError] of [highlight_selected_conflict] is caught by the
    handler after the assignment. *)
Definition on_conflict_selected (s : GitMergeApp) (conflict_num : Z)
  : GitMergeApp :=
  match current_conflicts s with
  | [] => s
  | _ :: _ =>
      let s := with_selected s conflict_num in
      if selected_conflict_index s <? 0 then s
      else
        match current_conflicts s !! Z.to_nat (selected_conflict_index s) with
        | Some conflict =>
            update_status s
              ("Selected conflict "
               +:+ pretty (selected_conflict_index s + 1)
               +:+ " at lines " +:+ pretty (start conflict)
               +:+ "-" +:+ pretty (end_ conflict))
        | None => s
        end
  end.

(** [GitMergeApp.on_text_edited] *)
Definition on_text_edited (s : GitMergeApp) : GitMergeApp :=
  let content := get_value s "local_text" in
  let remaining_conflicts :=
    match git_repo s with
    | Some _ => Parser.parse_conflict_markers content
    | None => []
    end in
  if negb (length remaining_conflicts =? length (current_conflicts s))%nat
  then
    update_status (with_conflicts s remaining_conflicts)
      "Content manually edited - conflict list updated"
  else s.

End Program.

(** ** Notions used to state the properties *)

(** *** The shape of a document, as the parser reads it

    A document is a sequence of conflict blocks, each preceded by ordinary
    lines, followed by a tail that holds no complete block. *)
Module Layout.

Import Parser.

Record Block := mkBlock {
  blk_before : list string;
  blk_start : string;
  blk_local : list string;
  blk_base : option (string * list string);
  blk_middle : string;
  blk_remote : list string;
  blk_end : string
}.

Definition base_section (b : Block) : list string :=
  match blk_base b with
  | Some (sep, ls) => sep :: ls
  | None => []
  end.

Definition base_lines (b : Block) : list string :=
  match blk_base b with
  | Some (_, ls) => ls
  | None => []
  end.

Definition block_lines (b : Block) : list string :=
  blk_before b ++ blk_start b :: blk_local b ++ base_section b
    ++ blk_middle b :: blk_remote b ++ [blk_end b].

Definition none_of (p : string → bool) (ls : list string) : bool :=
  forallb (λ l, negb (p l)) ls.

(** The block is delimited by its four markers: no start marker before
    it, no separator among the local lines, no middle separator among
    the base lines, no end marker among the remote lines. *)
Definition well_formed_block (b : Block) : bool :=
  none_of is_start (blk_before b)
  && is_start (blk_start b)
  && none_of is_separator (blk_local b)
  && match blk_base b with
     | Some (sep, ls) => is_base sep && none_of is_middle ls
     | None => true
     end
  && is_middle (blk_middle b)
  && none_of is_end (blk_remote b)
  && is_end (blk_end b).

(** What follows the last block: lines with no start marker, or a marker
    sequence that the end of the text cuts short. *)
Inductive Tail :=
| Plain (ls : list string)
| Unterminated (before : list string) (s : string) (rest : list string).

Definition tail_lines (t : Tail) : list string :=
  match t with
  | Plain ls => ls
  | Unterminated before s rest => before ++ s :: rest
  end.

(** No middle separator in [rest], or no end marker after the first one. *)
Fixpoint never_closes (rest : list string) : bool :=
  match rest with
  | [] => true
  | l :: rest' => if is_middle l then none_of is_end rest'
                  else never_closes rest'
  end.

Definition well_formed_tail (t : Tail) : bool :=
  match t with
  | Plain ls => none_of is_start ls
  | Unterminated before s rest =>
      none_of is_start before && is_start s && never_closes rest
  end.

Record Doc := mkDoc { blocks : list Block; doc_tail : Tail }.

Definition doc_lines (d : Doc) : list string :=
  concat (map block_lines (blocks d)) ++ tail_lines (doc_tail d).

Definition well_formed (d : Doc) : bool :=
  forallb well_formed_block (blocks d) && well_formed_tail (doc_tail d).

(** The region of block [b], when the lines of [b] begin at index [off]
    of the document and [id] regions precede it. *)
Definition region_of (off : nat) (id : Z) (b : Block) : ConflictMarkers :=
  let s := (off + length (blk_before b))%nat in
  let m := (S s + length (blk_local b) + length (base_section b))%nat in
  let e := (S m + length (blk_remote b))%nat in
  ConflictMarkers_new (Z.of_nat s) (Z.of_nat m) (Z.of_nat e)
    (base_lines b) (blk_local b) (blk_remote b) id.

Fixpoint regions_from (off : nat) (id : Z) (bs : list Block)
  : list ConflictMarkers :=
  match bs with
  | [] => []
  | b :: bs' =>
      region_of off id b
        :: regions_from (off + length (block_lines b)) (id + 1) bs'
  end.

Definition regions (d : Doc) : list ConflictMarkers :=
  regions_from 0 0 (blocks d).

End Layout.

(** *** Region invariants *)

(** The record keeps no index for the base separator. When the parser met
    one, it is the line that ended the local lines: the line after them,
    unless that line is the middle separator. *)
Definition separator_base (c : ConflictMarkers) : option Z :=
  let b := start c + 1 + Z.of_nat (length (local_content c)) in
  if b =? middle c then None else Some b.

Definition markers_ordered (c : ConflictMarkers) : Prop :=
  start c < middle c < end_ c
  ∧ ∀ b, separator_base c = Some b → start c < b < middle c.

(** [c1] lies wholly before [c2]. *)
Definition before (c1 c2 : ConflictMarkers) : Prop := end_ c1 < start c2.

(** *** Notions about the run of the parser *)

Import Parser Layout.

(** How the lines before the middle separator divide into local lines and
    base section. *)
Inductive sections (l1 loc bas : list string) : Prop :=
| no_base_section :
    l1 = loc → bas = [] → none_of is_separator loc = true →
    sections l1 loc bas
| with_base_section sep :
    l1 = loc ++ sep :: bas → is_base sep = true →
    none_of is_separator loc = true → none_of is_middle bas = true →
    sections l1 loc bas.

(** The end of [parse_block], from the middle separator at index
    [middle_idx] on, [l2] being the lines after it. *)
Definition close_block (start_idx middle_idx : nat)
    (bas loc l2 : list string) (cid : Z)
  : option ConflictMarkers * nat * list string :=
  let '(remote, r3) := scan is_end l2 in
  let e := (S middle_idx + length remote)%nat in
  match r3 with
  | l' :: _ =>
      if is_end l' then
        (Some (ConflictMarkers_new (Z.of_nat start_idx) (Z.of_nat middle_idx)
                 (Z.of_nat e) bas loc remote cid), e, r3)
      else (None, e, r3)
  | [] => (None, e, r3)
  end.

(** What [parse_block] returns: nothing, with the cursor at the end of the
    text, or the block that begins at [start_idx]. *)
Inductive parse_block_result (i : nat) (rest : list string) (cid : Z)
  : option ConflictMarkers * nat * list string → Prop :=
| block_open i' : parse_block_result i rest cid (None, i', [])
| block_closed l1 loc bas m rem e more :
    rest = l1 ++ m :: rem ++ e :: more →
    sections l1 loc bas → is_middle m = true →
    none_of is_end rem = true → is_end e = true →
    parse_block_result i rest cid
      (Some (ConflictMarkers_new (Z.of_nat i) (Z.of_nat (S i + length l1))
               (Z.of_nat (S (S i + length l1) + length rem))
               bas loc rem cid),
       (S (S i + length l1) + length rem)%nat, e :: more).

(** The parser run from index [i], on the lines from [i] on. *)
Definition parse_at (i : nat) (ls : list string) (cid : Z)
  : list ConflictMarkers :=
  parse_loop (length ls) i ls cid.

(** Line [i] of [lines] exists and is a marker of the kind [p]. *)
Definition marker_at (lines : list string) (p : string → bool) (i : Z)
  : Prop :=
  0 ≤ i ∧ ∃ l, lines !! Z.to_nat i = Some l ∧ p l = true.

(** The index fields of [c] designate marker lines of [lines]. *)
Definition located (lines : list string) (c : ConflictMarkers) : Prop :=
  marker_at lines is_start (start c)
  ∧ marker_at lines is_middle (middle c)
  ∧ marker_at lines is_end (end_ c)
  ∧ ∀ b, separator_base c = Some b → marker_at lines is_base b.

(** *** Rejection previews *)

(** [needle in hay] *)
Fixpoint contains (needle hay : string) : bool :=
  String.prefix needle hay
  || match hay with
     | String _ rest => contains needle rest
     | EmptyString => false
     end.

(** The preview says that the rejected lines are the chosen ones. *)
Definition reports_identical (preview : string) : bool :=
  contains "(Identical to chosen content)" preview
  || contains "(identical)" preview.

(** *** Resolving one region after the other *)

(** The test of [resolve_with_version] on the conflict at position [k]. *)
Definition unresolved_at (cs : list ConflictMarkers) (k : nat) : bool :=
  match cs !! k with
  | Some c => negb (is_resolved c)
  | None => false
  end.

(** The positions of the unresolved conflicts, in list order. *)
Definition unresolved_positions (cs : list ConflictMarkers) : list nat :=
  List.filter (unresolved_at cs) (seq 0 (length cs)).

(** The lines [_resolve_single_conflict] takes for a resolution. *)
Definition chosen_for (resolution : Resolution) (c : ConflictMarkers)
  : list string :=
  match resolution with
  | res_local => local_content c
  | res_remote => remote_content c
  | res_base => base_content c
  end.

(** The lines it sets aside. *)
Definition rejected_for (resolution : Resolution) (c : ConflictMarkers)
  : list string :=
  match resolution with
  | res_local => remote_content c
  | res_remote => local_content c
  | res_base => local_content c ++ remote_content c
  end.

(** [conflict.end - conflict.start + 1 - len(chosen_content)] *)
Definition lines_removed_by (c : ConflictMarkers) (chosen : list string) : Z :=
  (end_ c - start c + 1) - Z.of_nat (length chosen).

(** The states hold the same regions and the same Document. *)
Definition same_store (s1 s2 : GitMergeApp) : Prop :=
  current_conflicts s1 = current_conflicts s2 ∧ local_text s1 = local_text s2.

(** *** Sessions *)

(** A session on a loaded file: the repository and the file are known,
    the file still reads as the text kept in [original_content], and
    every region of the store has its backup. [load_conflicted_file]
    leaves the application so and the resolution methods keep it so. *)
Definition in_session (w : World) (s : GitMergeApp) : Prop :=
  ∃ repo file,
    git_repo s = Some repo
    ∧ current_file s = Some file
    ∧ read_text w (repo_path repo) file = Returns (original_content s)
    ∧ length (original_conflicts s) = length (current_conflicts s).

(** The regions of the store have distinct ids and their markers in
    order, as the parser numbers and places them. *)
Definition store_ordered (s : GitMergeApp) : Prop :=
  NoDup (map conflict_id (current_conflicts s))
  ∧ Forall (λ c, start c < middle c < end_ c) (current_conflicts s).

(** *** A stand-in for [difflib.unified_diff]

    It reports equal inputs as equal and otherwise puts all lines in one
    hunk, which is what [difflib] prints for inputs with no line in
    common. It only serves to run the program on examples. *)
Module WholeFileDiff.

(** [_format_range_unified(start, stop)] for [start = 0] *)
Definition format_range (stop : nat) : string :=
  match stop with
  | 1%nat => "1"
  | O => "0,0"
  | _ => "1," +:+ pretty stop
  end.

Definition unified_diff (a b : list string) (n : nat) : list string :=
  if bool_decide (a = b) then []
  else
    ["--- "; "+++ ";
     "@@ -" +:+ format_range (length a)
       +:+ " +" +:+ format_range (length b) +:+ " @@"]
    ++ map (λ l, "-" +:+ l) a ++ map (λ l, "+" +:+ l) b.

End WholeFileDiff.

(** *** A sample session

    A text with two conflict blocks, the second with a base section; the
    repository that holds it; the application before and after loading
    it. *)
Module Sample.

Definition lines : list string :=
  [ "intro";
    "<<<<<<< HEAD"; "a"; "======="; "b"; ">>>>>>> branch";
    "between";
    "<<<<<<< HEAD"; "c"; "||||||| ancestor"; "d"; "======="; "e"; "f";
    ">>>>>>> branch";
    "outro" ].

Definition text : string := Py.join_lines lines.

Definition doc : Layout.Doc :=
  Layout.mkDoc
    [ Layout.mkBlock ["intro"] "<<<<<<< HEAD" ["a"] None "=======" ["b"]
        ">>>>>>> branch";
      Layout.mkBlock ["between"] "<<<<<<< HEAD" ["c"]
        (Some ("||||||| ancestor", ["d"])) "=======" ["e"; "f"]
        ">>>>>>> branch" ]
    (Layout.Plain ["outro"]).

Definition repo : GitRepository := mkGitRepository "/repo".

Definition file : string := "notes.txt".

Definition world : World :=
  mkWorld (λ _ _, Returns text) (λ _ _ _, None).

(** The application once [__init__] has found the repository: the text
    widgets as [create_ui] creates them. *)
Definition initial : GitMergeApp :=
  mkGitMergeApp (Some repo) None [] [] ∅ (-1) "" true
    (list_to_map
       [ ("current_file_label", "None selected");
         ("base_text", ""); ("local_text", ""); ("remote_text", "");
         ("rejection_preview",
          "// Make a choice to see rejected alternative");
         ("status_text", "Ready - Initialize Git repository to begin") ]).

Definition loaded : GitMergeApp := load_conflicted_file world initial file.

Definition first_region : ConflictMarkers :=
  mkConflictMarkers 1 3 5 [] ["a"] ["b"] 0 false None 0 0 None None.

Definition second_region : ConflictMarkers :=
  mkConflictMarkers 7 11 14 ["d"] ["c"] ["e"; "f"] 1 false None 0 0 None None.

(** The session after a third block was typed at the end of the working
    copy and selected. *)
Definition edited : GitMergeApp :=
  let typed :=
    Py.join_lines
      (lines ++ ["<<<<<<< HEAD"; "g"; "======="; "h"; ">>>>>>> branch"]) in
  on_conflict_selected (on_text_edited (set_value loaded "local_text" typed))
    2.

End Sample.

(** ** Further methods of the program *)

(** The test [highlight.start_line <= i < highlight.end_line]. *)
Definition highlight_covers (i : Z) (highlight : DiffHighlight) : bool :=
  (start_line highlight <=? i) && (i <? end_line highlight).

(** The body of [for i, line in enumerate(lines)] in
    [apply_highlights_to_text]: the first highlight that covers the line
    decides its mark. *)
Definition highlight_line (highlights : list DiffHighlight) (i : nat)
    (line : string) : string :=
  match List.find (highlight_covers (Z.of_nat i)) highlights with
  | Some highlight =>
      if String.eqb (highlight_type highlight) "added" then "[+] " +:+ line
      else if String.eqb (highlight_type highlight) "removed"
      then "[-] " +:+ line
      else "[~] " +:+ line
  | None => "    " +:+ line
  end.

(** [DiffHighlighter.apply_highlights_to_text] *)
Definition apply_highlights_to_text (text : string)
    (highlights : list DiffHighlight) : string :=
  match highlights with
  | [] => text
  | _ :: _ =>
      Py.join_lines (imap (highlight_line highlights) (Py.splitlines text))
  end.

(** The lines [remove_conflict_markers] drops. *)
Definition is_marker (line : string) : bool :=
  Parser.is_start line || Parser.is_middle line
  || Parser.is_end line || Parser.is_base line.

(** [GitMergeApp.remove_conflict_markers] *)
Definition remove_conflict_markers (s : GitMergeApp) : GitMergeApp :=
  let content := get_value s "local_text" in
  if String.eqb content "" then s
  else
    let lines := Py.splitlines content in
    let cleaned_lines := List.filter (λ line, negb (is_marker line)) lines in
    update_status (set_value s "local_text" (Py.join_lines cleaned_lines))
      "Removed conflict markers".

(** [GitMergeApp.restore_all_conflicts] *)
Definition restore_all_conflicts (w : World) (s : GitMergeApp)
  : GitMergeApp :=
  match current_file s with
  | Some file =>
      let s := load_conflicted_file w s file in
      let s := set_value s "rejection_preview"
                 "// All conflicts restored to original state" in
      update_status s "Restored all conflicts to original state"
  | None => s
  end.

(** [GitMergeApp.clear_all_highlights] *)
Definition clear_all_highlights (w : World) (s : GitMergeApp) : GitMergeApp :=
  match current_file s, git_repo s with
  | Some file, Some repo =>
      match read_text w (repo_path repo) file with
      | Returns original_content =>
          update_status (set_value s "local_text" original_content)
            "Cleared all highlights"
      | Raises e => update_status s ("Error clearing highlights: " +:+ e)
      end
  | _, _ => s
  end.

(** [GitMergeApp.toggle_rejection_preview] *)
Definition toggle_rejection_preview (s : GitMergeApp) (app_data : bool)
  : GitMergeApp :=
  let s :=
    mkGitMergeApp (git_repo s) (current_file s) (current_conflicts s)
      (original_conflicts s) (file_versions s) (selected_conflict_index s)
      (original_content s) app_data (dpg s) in
  if app_data then s
  else set_value s "rejection_preview" "// Rejection preview disabled".

(** [GitMergeApp.highlight_selected_conflict]; [None] is the [IndexError]
    of [self.current_conflicts[self.selected_conflict_index]]. *)
Definition highlight_selected_conflict (s : GitMergeApp)
  : option GitMergeApp :=
  match current_conflicts s with
  | [] => Some s
  | _ :: _ =>
      if selected_conflict_index s <? 0 then Some s
      else
        match current_conflicts s !! Z.to_nat (selected_conflict_index s) with
        | Some conflict =>
            Some (update_status s
                    ("Selected conflict "
                     +:+ pretty (selected_conflict_index s + 1)
                     +:+ " at lines " +:+ pretty (start conflict)
                     +:+ "-" +:+ pretty (end_ conflict)))
        | None => None
        end
  end.

(** [GitMergeApp.prev_conflict] *)
Definition prev_conflict (s : GitMergeApp) : option GitMergeApp :=
  match current_conflicts s with
  | [] => Some s
  | _ :: _ =>
      if selected_conflict_index s >? 0 then
        highlight_selected_conflict
          (with_selected s (selected_conflict_index s - 1))
      else Some s
  end.

(** [GitMergeApp.next_conflict] *)
Definition next_conflict (s : GitMergeApp) : option GitMergeApp :=
  match current_conflicts s with
  | [] => Some s
  | _ :: _ =>
      if selected_conflict_index s
         <? Z.of_nat (length (current_conflicts s)) - 1
      then
        highlight_selected_conflict
          (with_selected s (selected_conflict_index s + 1))
      else Some s
  end.

(** *** Notions for the further properties *)

(** The text holds no line boundary: it is one line for [splitlines]. *)
Fixpoint one_line (l : string) : bool :=
  match l with
  | EmptyString => true
  | String c rest => negb (Py.is_linebreak c) && one_line rest
  end.

(** The lines a resolution keeps of a block. *)
Definition block_choice (resolution : Resolution) (b : Layout.Block)
  : list string :=
  match resolution with
  | res_local => Layout.blk_local b
  | res_remote => Layout.blk_remote b
  | res_base => Layout.base_lines b
  end.

(** The lines of the document once every block is replaced by the lines
    kept of it. *)
Definition merged_lines (resolution : Resolution) (d : Layout.Doc)
  : list string :=
  concat (map (λ b, Layout.blk_before b ++ block_choice resolution b)
              (Layout.blocks d))
  ++ Layout.tail_lines (Layout.doc_tail d).




(** The state in which the blocks [bs] are at their place: [pre] holds
    the lines before them, [k] regions come before theirs. *)
Definition blocks_pending (s : GitMergeApp) (pre : list string) (k : nat)
    (bs : list Layout.Block) (tl : list string) : Prop :=
  Py.splitlines (local_text s)
  = pre ++ concat (map Layout.block_lines bs) ++ tl
  ∧ drop k (current_conflicts s)
    = Layout.regions_from (length pre) (Z.of_nat k) bs.

(** [line[4:]] *)
Definition drop_mark (line : string) : string :=
  Py.drop_first (Py.drop_first (Py.drop_first (Py.drop_first line))).

(** A highlight as [generate_line_diff] makes them: one line of the
    chosen text, counted from the line a hunk header names, with the
    line of the diff as its content. *)
Definition one_line_mark (h : DiffHighlight) : Prop :=
  -1 ≤ start_line h
  ∧ end_line h = start_line h + 1
  ∧ (highlight_type h = "removed" ∨ highlight_type h = "added")
  ∧ length (content h) = 1%nat.

(** The lines of a diff that [generate_line_diff] reports. *)
Definition is_change_line (line : string) : bool :=
  negb (Py.startswith line "@@")
  && (Py.startswith line "-" || Py.startswith line "+").

(** The number of lines from the start marker of a block to its end
    marker, both included. *)
Definition marker_span (b : Layout.Block) : nat :=
  length (Layout.block_lines b) - length (Layout.blk_before b).

(** The text is a run of decimal digits, one at least: what [\d+]
    matches in full. *)
Definition is_number (d : string) : bool :=
  negb (String.eqb d "")
  && forallb HunkHeader.is_digit (list_ascii_of_string d).

(** The count of a range of a hunk header, left out when it is 1. *)
Definition optional_count (d : option string) : string :=
  match d with
  | Some d => "," +:+ d
  | None => ""
  end.

(** The header of a hunk of a unified diff: [@@ -d1,d2 +d3,d4 @@]. *)
Definition hunk_header (d1 : string) (d2 : option string) (d3 : string)
    (d4 : option string) : string :=
  "@@ -" +:+ d1 +:+ optional_count d2
    +:+ " +" +:+ d3 +:+ optional_count d4 +:+ " @@".

(** *** Further sample states *)
Module Cases.

Definition first_block : Layout.Block :=
  Layout.mkBlock ["intro"] "<<<<<<< HEAD" ["a"] None "=======" ["b"]
    ">>>>>>> branch".

Definition second_block : Layout.Block :=
  Layout.mkBlock ["between"] "<<<<<<< HEAD" ["c"]
    (Some ("||||||| ancestor", ["d"])) "=======" ["e"; "f"]
    ">>>>>>> branch".

(** A text whose block lacks its end marker. *)
Definition unterminated : string :=
  Py.join_lines ["<<<<<<< HEAD"; "a"; "======="; "b"].

(** A world in which the file cannot be read. *)
Definition unreadable : World :=
  mkWorld (λ _ _, Raises "No such file or directory") (λ _ _ _, None).

(** The working copy of the sample with a third block typed at its
    end. *)
Definition typed : string :=
  Py.join_lines
    (Sample.lines
     ++ ["<<<<<<< HEAD"; "g"; "======="; "h"; ">>>>>>> branch"]).

(** The session of [Sample.edited], the third region selected, after the
    working copy was cut down to one block. *)
Definition shrunk : GitMergeApp :=
  on_text_edited
    (set_value Sample.edited "local_text"
       (Py.join_lines
          ["<<<<<<< HEAD"; "a"; "======="; "b"; ">>>>>>> branch"])).

(** The sample session with the local lines of its first region
    accepted. *)
Definition accepted : GitMergeApp :=
  accept_conflict WholeFileDiff.unified_diff res_local Sample.loaded.

(** The same session with its second region selected next. *)
Definition later : GitMergeApp := on_conflict_selected accepted 1.

End Cases.

(** * Properties *)

(** ** The parser *)

Lemma prefix_head c p a l :
  String.prefix (String c p) (String a l)
  = if ascii_dec c a then String.prefix p l else false.
Proof. reflexivity. Qed.

Lemma is_middle_not_base l : is_middle l = true → is_base l = false.
Proof.
  unfold is_middle, is_base, Py.startswith.
  destruct l as [|a l]; [done|].
  rewrite !prefix_head.
  destruct (ascii_dec "=" a) as [<-|]; [|done]. intros _.
  by destruct (ascii_dec "|" "=").
Qed.

Lemma scan_app_stop stop xs l r :
  forallb (λ x, negb (stop x)) xs = true → stop l = true →
  scan stop (xs ++ l :: r) = (xs, l :: r).
Proof.
  intros Hxs Hl. induction xs as [|x xs IH]; simpl in *.
  - by rewrite Hl.
  - apply andb_prop in Hxs as [Hx Hxs]. apply negb_true_iff in Hx.
    rewrite Hx, IH; done.
Qed.

Lemma scan_all stop xs :
  forallb (λ x, negb (stop x)) xs = true → scan stop xs = (xs, []).
Proof.
  intros Hxs. induction xs as [|x xs IH]; simpl in *; [done|].
  apply andb_prop in Hxs as [Hx Hxs]. apply negb_true_iff in Hx.
  rewrite Hx, IH; done.
Qed.

Lemma scan_inv stop ls taken remaining :
  scan stop ls = (taken, remaining) →
  ls = taken ++ remaining
  ∧ forallb (λ x, negb (stop x)) taken = true
  ∧ match remaining with [] => True | l :: _ => stop l = true end.
Proof.
  revert taken remaining. induction ls as [|x ls IH]; simpl; intros t r H.
  - by inversion H.
  - destruct (stop x) eqn:Hx.
    + inversion H; subst. simpl. by rewrite Hx.
    + destruct (scan stop ls) as [t' r'] eqn:E. inversion H; subst.
      destruct (IH _ _ eq_refl) as (-> & Ht & Hr). simpl. by rewrite Hx, Ht.
Qed.


Lemma none_of_app p xs ys :
  none_of p (xs ++ ys) = none_of p xs && none_of p ys.
Proof. apply forallb_app. Qed.

Lemma none_of_cons p x xs :
  none_of p (x :: xs) = negb (p x) && none_of p xs.
Proof. reflexivity. Qed.

Lemma split_first p ls :
  none_of p ls = true
  ∨ ∃ a x b, ls = a ++ x :: b ∧ none_of p a = true ∧ p x = true.
Proof.
  induction ls as [|l ls IH]; [by left|].
  destruct (p l) eqn:Hl.
  - right. by exists [], l, ls.
  - destruct IH as [IH|(a & x & b & -> & Ha & Hx)].
    + left. by rewrite none_of_cons, Hl, IH.
    + right. exists (l :: a), x, b. by rewrite none_of_cons, Hl, Ha.
Qed.

Lemma sections_exist l1 :
  none_of is_middle l1 = true → ∃ loc bas, sections l1 loc bas.
Proof.
  intros Hmid.
  destruct (split_first is_base l1) as [Hb|(a & x & b & -> & Ha & Hx)].
  - exists l1, []. apply no_base_section; [done..|].
    unfold none_of in *. rewrite forallb_forall in *. intros l Hl.
    unfold is_separator. specialize (Hb l Hl). specialize (Hmid l Hl).
    apply negb_true_iff in Hb, Hmid. by rewrite Hb, Hmid.
  - rewrite none_of_app, none_of_cons in Hmid.
    apply andb_prop in Hmid as [Hma Hmid]. apply andb_prop in Hmid as [_ Hmb].
    exists a, b. apply with_base_section with x; [done..| |done].
    unfold none_of in *. rewrite forallb_forall in *. intros l Hl.
    unfold is_separator. specialize (Ha l Hl). specialize (Hma l Hl).
    apply negb_true_iff in Ha, Hma. by rewrite Ha, Hma.
Qed.

Lemma parse_block_sections i l1 loc bas m l2 cid :
  sections l1 loc bas → is_middle m = true →
  parse_block i (l1 ++ m :: l2) cid
  = close_block i (S i + length l1) bas loc l2 cid.
Proof.
  intros Hsec Hm. unfold parse_block, close_block.
  destruct Hsec as [-> -> Hloc|sep -> Hsep Hloc Hbas].
  - rewrite (scan_app_stop _ loc m l2);
      [|done|unfold is_separator; by rewrite Hm, orb_true_r].
    rewrite (is_middle_not_base _ Hm), Hm.
    by destruct (scan is_end l2) as [remote r3].
  - rewrite <-app_assoc. simpl.
    rewrite (scan_app_stop _ loc sep);
      [|done|unfold is_separator; by rewrite Hsep].
    rewrite Hsep. rewrite (scan_app_stop _ bas m l2); [|done..].
    rewrite Hm. rewrite !length_app. simpl.
    replace (i + (length loc + S (length bas)))%nat
      with (S (i + length loc + length bas)) by lia.
    by destruct (scan is_end l2) as [remote r3].
Qed.

Lemma parse_block_no_middle i rest cid :
  none_of is_middle rest = true →
  ∃ i', parse_block i rest cid = (None, i', []).
Proof.
  intros Hmid. unfold parse_block.
  destruct (scan _ rest) as [loc r1] eqn:E1.
  apply scan_inv in E1 as (-> & Hloc & Hr1).
  rewrite none_of_app in Hmid. apply andb_prop in Hmid as [_ Hmid].
  destruct r1 as [|l r1']; [by eexists|].
  rewrite none_of_cons in Hmid. apply andb_prop in Hmid as [Hl Hmid].
  apply negb_true_iff in Hl. unfold is_separator in Hr1.
  rewrite Hl, orb_false_r in Hr1. rewrite Hr1.
  rewrite (scan_all _ _ Hmid). by eexists.
Qed.

Lemma close_block_open s m bas loc l2 cid :
  none_of is_end l2 = true →
  ∃ i', close_block s m bas loc l2 cid = (None, i', []).
Proof.
  intros H. unfold close_block. rewrite (scan_all _ _ H). by eexists.
Qed.

Lemma close_block_closed s m bas loc rem e more cid :
  none_of is_end rem = true → is_end e = true →
  close_block s m bas loc (rem ++ e :: more) cid
  = (Some (ConflictMarkers_new (Z.of_nat s) (Z.of_nat m)
             (Z.of_nat (S m + length rem)) bas loc rem cid),
     (S m + length rem)%nat, e :: more).
Proof.
  intros Hrem He. unfold close_block.
  by rewrite (scan_app_stop _ _ _ _ Hrem He), He.
Qed.

Lemma parse_block_cases i rest cid :
  parse_block_result i rest cid (parse_block i rest cid).
Proof.
  destruct (split_first is_middle rest) as [H|(l1 & m & l2 & -> & Hl1 & Hm)].
  - destruct (parse_block_no_middle i rest cid H) as [i' ->]. constructor.
  - destruct (sections_exist l1 Hl1) as (loc & bas & Hsec).
    rewrite (parse_block_sections _ _ _ _ _ _ _ Hsec Hm).
    destruct (split_first is_end l2) as [H|(rem & e & more & -> & Hrem & He)].
    + destruct (close_block_open i (S i + length l1) bas loc l2 cid H)
        as [i' ->].
      constructor.
    + rewrite (close_block_closed _ _ _ _ _ _ _ _ Hrem He).
      by eapply block_closed.
Qed.

Lemma parse_block_length i rest cid o i' r :
  parse_block i rest cid = (o, i', r) → (length (tail r) ≤ length rest)%nat.
Proof.
  intros E. pose proof (parse_block_cases i rest cid) as H. rewrite E in H.
  inversion H; subst; simpl; [lia|].
  rewrite !length_app. simpl. rewrite !length_app. simpl. lia.
Qed.

Lemma parse_loop_fuel fuel1 fuel2 i ls cid :
  (length ls ≤ fuel1)%nat → (length ls ≤ fuel2)%nat →
  parse_loop fuel1 i ls cid = parse_loop fuel2 i ls cid.
Proof.
  revert fuel2 i ls cid.
  induction fuel1 as [|fuel1 IH]; intros fuel2 i ls cid H1 H2.
  - destruct ls; [|simpl in H1; lia]. by destruct fuel2.
  - destruct fuel2 as [|fuel2]; [destruct ls; [done|simpl in H2; lia]|].
    destruct ls as [|line rest]; [done|]. simpl in H1, H2. simpl.
    destruct (is_start line); [|apply IH; lia].
    destruct (parse_block i rest cid) as [[o i'] r] eqn:E.
    apply parse_block_length in E.
    destruct o; [f_equal|]; apply IH; lia.
Qed.

Lemma parse_at_nil i cid : parse_at i [] cid = [].
Proof. reflexivity. Qed.

Lemma parse_at_skip i line rest cid :
  is_start line = false →
  parse_at i (line :: rest) cid = parse_at (S i) rest cid.
Proof. intros H. unfold parse_at. simpl. by rewrite H. Qed.

Lemma parse_at_block i line rest cid :
  is_start line = true →
  parse_at i (line :: rest) cid
  = match parse_block i rest cid with
    | (Some c, i', r) => c :: parse_at (S i') (tail r) (cid + 1)
    | (None, i', r) => parse_at (S i') (tail r) cid
    end.
Proof.
  intros H. unfold parse_at. simpl. rewrite H.
  destruct (parse_block i rest cid) as [[o i'] r] eqn:E.
  apply parse_block_length in E.
  destruct o; [f_equal|]; apply parse_loop_fuel; lia.
Qed.

Lemma parse_at_plain i ls rest cid :
  none_of is_start ls = true →
  parse_at i (ls ++ rest) cid = parse_at (i + length ls) rest cid.
Proof.
  revert i. induction ls as [|l ls IH]; intros i H; simpl.
  - by rewrite Nat.add_0_r.
  - rewrite none_of_cons in H. apply andb_prop in H as [Hl H].
    apply negb_true_iff in Hl. rewrite (parse_at_skip _ _ _ _ Hl), IH by done.
    f_equal. lia.
Qed.

Lemma never_closes_app l1 m l2 :
  none_of is_middle l1 = true → is_middle m = true →
  never_closes (l1 ++ m :: l2) = none_of is_end l2.
Proof.
  intros Hl1 Hm. induction l1 as [|l l1 IH]; simpl.
  - by rewrite Hm.
  - rewrite none_of_cons in Hl1. apply andb_prop in Hl1 as [Hl Hl1].
    apply negb_true_iff in Hl. rewrite Hl. by apply IH.
Qed.

Lemma parse_block_never_closes i rest cid :
  never_closes rest = true → ∃ i', parse_block i rest cid = (None, i', []).
Proof.
  intros H.
  destruct (split_first is_middle rest) as [Hn|(l1 & m & l2 & -> & Hl1 & Hm)].
  - by apply parse_block_no_middle.
  - rewrite (never_closes_app _ _ _ Hl1 Hm) in H.
    destruct (sections_exist l1 Hl1) as (loc & bas & Hsec).
    rewrite (parse_block_sections _ _ _ _ _ _ _ Hsec Hm).
    by apply close_block_open.
Qed.

Lemma parse_at_tail i t cid :
  well_formed_tail t = true → parse_at i (tail_lines t) cid = [].
Proof.
  destruct t as [ls|bef s rest]; simpl; intros H.
  - rewrite <-(app_nil_r ls). by rewrite parse_at_plain.
  - apply andb_prop in H as [H Hrest]. apply andb_prop in H as [Hbef Hs].
    rewrite parse_at_plain, parse_at_block by done.
    by destruct (parse_block_never_closes (i + length bef) rest cid Hrest)
      as [i' ->].
Qed.

Lemma well_formed_sections b :
  well_formed_block b = true →
  sections (blk_local b ++ base_section b) (blk_local b) (base_lines b).
Proof.
  unfold well_formed_block, base_section, base_lines. intros H.
  repeat (apply andb_prop in H as [H ?]).
  destruct (blk_base b) as [[sep ls]|].
  - match goal with H : _ && _ = true |- _ => apply andb_prop in H as [? ?] end.
    by apply with_base_section with sep.
  - rewrite app_nil_r. by apply no_base_section.
Qed.

Lemma length_block_lines b :
  length (block_lines b)
  = (S (S (S (length (blk_before b) + length (blk_local b)
              + length (base_section b) + length (blk_remote b)))))%nat.
Proof.
  unfold block_lines.
  repeat (rewrite !length_app; simpl). lia.
Qed.

Lemma block_lines_app b rest :
  block_lines b ++ rest
  = blk_before b ++ blk_start b
      :: (blk_local b ++ base_section b)
      ++ blk_middle b :: blk_remote b ++ blk_end b :: rest.
Proof.
  unfold block_lines.
  repeat (rewrite <-?app_assoc; simpl; f_equal).
Qed.

Lemma parse_at_block_lines off id b rest :
  well_formed_block b = true →
  parse_at off (block_lines b ++ rest) id
  = region_of off id b
      :: parse_at (off + length (block_lines b)) rest (id + 1).
Proof.
  intros Hwf. pose proof (well_formed_sections b Hwf) as Hsec.
  rewrite length_block_lines.
  unfold well_formed_block in Hwf.
  repeat (apply andb_prop in Hwf as [Hwf ?]).
  rewrite block_lines_app.
  rewrite parse_at_plain by done.
  rewrite parse_at_block by done.
  rewrite (parse_block_sections _ _ _ _ _ _ _ Hsec) by done. simpl.
  rewrite close_block_closed by done. simpl.
  unfold region_of. rewrite length_app. repeat f_equal; lia.
Qed.

Lemma parse_at_doc off id bs t :
  forallb well_formed_block bs = true → well_formed_tail t = true →
  parse_at off (concat (map block_lines bs) ++ tail_lines t) id
  = regions_from off id bs.
Proof.
  intros Hbs Ht. revert off id.
  induction bs as [|b bs IH]; intros off id; simpl.
  - by apply parse_at_tail.
  - simpl in Hbs. apply andb_prop in Hbs as [Hb Hbs].
    rewrite <-app_assoc, parse_at_block_lines by done.
    by rewrite IH.
Qed.

Lemma length_regions_from off id bs :
  length (regions_from off id bs) = length bs.
Proof. revert off id; induction bs; intros; simpl; auto. Qed.

Lemma ids_regions_from off id bs :
  map conflict_id (regions_from off id bs)
  = map (λ k, id + Z.of_nat k) (seq 0 (length bs)).
Proof.
  revert off id; induction bs as [|b bs IH]; intros off id; simpl; [done|].
  rewrite IH. f_equal; [lia|]. rewrite <-seq_shift, map_map.
  apply map_ext. intros. lia.
Qed.

(** C2. A text whose lines are [N] well-formed conflict blocks, with
    ordinary lines around them and possibly a marker sequence cut short
    by the end of the text, parses to exactly [N] regions: one per block,
    in the order of the blocks, numbered [0..N-1], with [start], [middle]
    and [end] the indices of the marker lines of the block and the local,
    base and remote lines those between the markers. With no block the
    result is empty, and an unterminated sequence is left out. *)
Theorem parse_well_formed content d :
  Py.splitlines content = doc_lines d → well_formed d = true →
  let conflicts := parse_conflict_markers content in
  conflicts = regions d
  ∧ length conflicts = length (blocks d)
  ∧ map conflict_id conflicts = map Z.of_nat (seq 0 (length (blocks d))).
Proof.
  intros Hlines Hwf. apply andb_prop in Hwf as [Hbs Ht].
  assert (parse_conflict_markers content = regions d) as ->.
  { unfold parse_conflict_markers, parse_lines. rewrite Hlines.
    by apply parse_at_doc. }
  split_and!; [done|apply length_regions_from|].
  unfold regions. rewrite ids_regions_from. by apply map_ext.
Qed.

Lemma marker_at_intro lines pre l post p i :
  lines = pre ++ l :: post → i = Z.of_nat (length pre) → p l = true →
  marker_at lines p i.
Proof.
  intros -> -> Hl. split; [lia|]. exists l. split; [|done].
  rewrite Nat2Z.id. by apply list_lookup_middle.
Qed.

Lemma closed_block_ordered i l1 loc bas rem cid :
  sections l1 loc bas →
  markers_ordered
    (ConflictMarkers_new (Z.of_nat i) (Z.of_nat (S i + length l1))
       (Z.of_nat (S (S i + length l1) + length rem)) bas loc rem cid).
Proof.
  intros Hsec. unfold markers_ordered, separator_base. simpl.
  split; [lia|]. intros b.
  destruct Hsec as [-> -> _|sep -> _ _ _].
  - rewrite (proj2 (Z.eqb_eq _ _)) by lia. done.
  - rewrite length_app. simpl. case_match; [done|].
    intros [= <-]. lia.
Qed.

Lemma closed_block_located pre line i l1 loc bas m rem e more cid :
  i = length pre → is_start line = true →
  sections l1 loc bas → is_middle m = true → is_end e = true →
  located (pre ++ line :: l1 ++ m :: rem ++ e :: more)
    (ConflictMarkers_new (Z.of_nat i) (Z.of_nat (S i + length l1))
       (Z.of_nat (S (S i + length l1) + length rem)) bas loc rem cid).
Proof.
  intros -> Hline Hsec Hm He. unfold located.
  cbn [start middle end_ ConflictMarkers_new]. split_and!.
  - by apply (marker_at_intro _ pre line (l1 ++ m :: rem ++ e :: more)).
  - apply (marker_at_intro _ (pre ++ line :: l1) m (rem ++ e :: more));
      [by rewrite <-app_assoc|rewrite length_app; simpl; lia|done].
  - apply (marker_at_intro _ (pre ++ line :: l1 ++ m :: rem) e more);
      [|rewrite length_app; simpl; rewrite length_app; simpl; lia|done].
    by repeat (rewrite <-?app_assoc; simpl; f_equal).
  - intros b. unfold separator_base.
    cbn [start middle local_content ConflictMarkers_new].
    case_match eqn:Hb; [done|]. intros [= <-].
    destruct Hsec as [-> -> _|sep -> Hsep _ _].
    + apply Z.eqb_neq in Hb. lia.
    + apply (marker_at_intro _ (pre ++ line :: loc) sep
               (bas ++ m :: rem ++ e :: more));
        [|rewrite length_app; simpl; lia|done].
      by repeat (rewrite <-?app_assoc; simpl; f_equal).
Qed.

Lemma parse_at_invariant n pre ls cid :
  (length ls ≤ n)%nat →
  let cs := parse_at (length pre) ls cid in
  Forall (λ c, Z.of_nat (length pre) ≤ start c
               ∧ markers_ordered c ∧ located (pre ++ ls) c) cs
  ∧ StronglySorted before cs.
Proof.
  revert pre ls cid. induction n as [|n IH]; intros pre ls cid Hn cs.
  { destruct ls; [|simpl in Hn; lia]. split; constructor. }
  destruct ls as [|line rest]; [split; constructor|]. simpl in Hn.
  subst cs. destruct (is_start line) eqn:Hline.
  - rewrite parse_at_block by done.
    destruct (parse_block_cases (length pre) rest cid)
      as [i'|l1 loc bas m rem e more -> Hsec Hm Hrem He].
    { split; constructor. }
    cbn [tail].
    set (pre' := pre ++ line :: l1 ++ m :: rem ++ [e]).
    assert (length pre' = S (S (S (length pre + length l1) + length rem)))
      as Hlen.
    { unfold pre'. rewrite length_app; simpl. rewrite length_app; simpl.
      rewrite length_app; simpl. lia. }
    assert (pre ++ line :: l1 ++ m :: rem ++ e :: more = pre' ++ more)
      as Hlines.
    { unfold pre'. rewrite <-!app_assoc. simpl. rewrite <-!app_assoc. simpl.
      by rewrite <-!app_assoc. }
    replace (S (S (S (length pre) + length l1) + length rem))
      with (length pre') by lia.
    destruct (IH pre' more (cid + 1)) as [Hall Hsorted].
    { rewrite !length_app in Hn. simpl in Hn. rewrite !length_app in Hn.
      simpl in Hn. lia. }
    rewrite <-Hlines in Hall.
    split.
    + constructor.
      * split_and!; [simpl; lia|by apply closed_block_ordered|].
        by apply closed_block_located.
      * eapply Forall_impl; [exact Hall|]. simpl.
        intros c (Hc & ? & ?). split_and!; [lia|done..].
    + constructor; [done|].
      eapply Forall_impl; [exact Hall|]. simpl.
      intros c (Hc & _). unfold before. simpl. lia.
  - rewrite parse_at_skip by done.
    destruct (IH (pre ++ [line]) rest cid) as [Hall Hsorted]; [lia|].
    rewrite length_app in Hall, Hsorted. simpl in Hall, Hsorted.
    rewrite Nat.add_1_r in Hall, Hsorted.
    rewrite <-app_assoc in Hall. simpl in Hall.
    split; [|done].
    eapply Forall_impl; [exact Hall|]. simpl.
    intros c (Hc & ? & ?). split_and!; [lia|done..].
Qed.


Lemma sorted_by_start cs :
  StronglySorted before cs → Forall markers_ordered cs →
  StronglySorted (λ c1 c2, start c1 < start c2) cs.
Proof.
  induction 1 as [|c cs Hsorted IH Hc]; intros Hall; [constructor|].
  inversion Hall as [|? ? [Hord _] Hall']; subst.
  constructor; [by apply IH|].
  eapply Forall_impl; [exact Hc|]. unfold before. simpl. intros c' ?. lia.
Qed.

(** C8. The regions returned by the parser are sorted by [start] and lie
    one wholly before the next; in each of them
    [start < middle < end], and the base separator, when the block has
    one, lies strictly between [start] and [middle]; all four indices
    designate marker lines of the text. *)
Theorem parse_region_invariants content :
  let conflicts := parse_conflict_markers content in
  StronglySorted (λ c1 c2, start c1 < start c2) conflicts
  ∧ StronglySorted before conflicts
  ∧ Forall markers_ordered conflicts
  ∧ Forall (located (Py.splitlines content)) conflicts.
Proof.
  intros conflicts.
  destruct (parse_at_invariant (length (Py.splitlines content)) []
              (Py.splitlines content) 0) as [Hall Hsorted]; [done|].
  fold (parse_lines (Py.splitlines content)) in Hall, Hsorted.
  assert (Forall markers_ordered conflicts) as Hord.
  { eapply Forall_impl; [exact Hall|]. by intros c (_ & ? & _). }
  split_and!; [by apply sorted_by_start|done|done|].
  eapply Forall_impl; [exact Hall|]. by intros c (_ & _ & ?).
Qed.

Lemma never_closes_no_middle rest :
  none_of is_middle rest = true → never_closes rest = true.
Proof.
  intros Hmid. induction rest as [|l rest IH]; [done|].
  rewrite none_of_cons in Hmid. apply andb_prop in Hmid as [Hl Hmid].
  apply negb_true_iff in Hl. simpl. rewrite Hl. by apply IH.
Qed.

(** Induction on the run of the outer loop. *)
Lemma parse_at_ind
    (P : nat → list string → Z → list ConflictMarkers → Prop) :
  (∀ i cid, P i [] cid []) →
  (∀ i line rest cid,
     is_start line = false →
     P (S i) rest cid (parse_at (S i) rest cid) →
     P i (line :: rest) cid (parse_at (S i) rest cid)) →
  (∀ i line rest cid,
     is_start line = true → never_closes rest = true →
     P i (line :: rest) cid []) →
  (∀ i line l1 loc bas m rem e more cid,
     is_start line = true → sections l1 loc bas → is_middle m = true →
     none_of is_end rem = true → is_end e = true →
     let i' := (S (S i + length l1) + length rem)%nat in
     P (S i') more (cid + 1) (parse_at (S i') more (cid + 1)) →
     P i (line :: l1 ++ m :: rem ++ e :: more) cid
       (ConflictMarkers_new (Z.of_nat i) (Z.of_nat (S i + length l1))
          (Z.of_nat i') bas loc rem cid
        :: parse_at (S i') more (cid + 1))) →
  ∀ i ls cid, P i ls cid (parse_at i ls cid).
Proof.
  intros Hnil Hskip Hopen Hclosed i ls.
  remember (length ls) as n eqn:Hn. revert i ls Hn.
  induction n as [n IH] using lt_wf_ind. intros i ls -> cid.
  destruct ls as [|line rest]; [apply Hnil|].
  destruct (is_start line) eqn:Hline.
  - rewrite parse_at_block by done.
    destruct (split_first is_middle rest)
      as [Hmid|(l1 & m & l2 & -> & Hl1 & Hm)].
    { destruct (parse_block_no_middle i rest cid Hmid) as [i' ->].
      apply Hopen; [done|]. by apply never_closes_no_middle. }
    destruct (sections_exist l1 Hl1) as (loc & bas & Hsec).
    rewrite (parse_block_sections _ _ _ _ _ _ _ Hsec Hm).
    destruct (split_first is_end l2)
      as [Hend|(rem & e & more & -> & Hrem & He)].
    { destruct (close_block_open i (S i + length l1) bas loc l2 cid Hend)
        as [i' ->].
      apply Hopen; [done|]. by rewrite never_closes_app. }
    rewrite (close_block_closed _ _ _ _ _ _ _ _ Hrem He). cbn [tail].
    apply Hclosed; [done..|].
    eapply IH; [|done]. simpl. rewrite !length_app. simpl.
    rewrite !length_app. simpl. lia.
  - rewrite parse_at_skip by done. apply Hskip; [done|].
    eapply IH; [|done]. simpl. lia.
Qed.

Lemma parse_at_ids i ls cid :
  map conflict_id (parse_at i ls cid)
  = map (λ k, cid + Z.of_nat k) (seq 0 (length (parse_at i ls cid))).
Proof.
  apply (parse_at_ind (λ _ _ cid cs,
           map conflict_id cs
           = map (λ k, cid + Z.of_nat k) (seq 0 (length cs))));
    clear; try done.
  intros i line l1 loc bas m rem e more cid _ _ _ _ _ i' IH.
  cbn [map length seq conflict_id ConflictMarkers_new]. rewrite IH.
  f_equal; [lia|]. rewrite <-seq_shift, map_map.
  apply map_ext. intros. lia.
Qed.

Lemma parse_ids_distinct content :
  NoDup (map conflict_id (parse_conflict_markers content)).
Proof.
  unfold parse_conflict_markers, parse_lines.
  fold (parse_at 0 (Py.splitlines content) 0).
  rewrite parse_at_ids.
  apply NoDup_fmap_2; [|apply NoDup_ListNoDup, seq_NoDup].
  intros a b. lia.
Qed.

(** Every text has the shape of [Layout.Doc]. *)
Lemma layout_exists ls :
  ∃ d, well_formed d = true ∧ doc_lines d = ls.
Proof.
  remember (length ls) as n eqn:Hn. revert ls Hn.
  induction n as [n IH] using lt_wf_ind. intros ls ->.
  destruct (split_first is_start ls) as [H|(pre & s & rest & -> & Hpre & Hs)].
  { exists (mkDoc [] (Plain ls)). by split. }
  assert (∀ t, well_formed_tail t = true →
               tail_lines t = pre ++ s :: rest →
               ∃ d, well_formed d = true ∧ doc_lines d = pre ++ s :: rest)
    as Htail.
  { intros t Ht Hlines. exists (mkDoc [] t). by split. }
  destruct (split_first is_middle rest)
    as [Hmid|(l1 & m & l2 & -> & Hl1 & Hm)].
  { apply (Htail (Unterminated pre s rest)); [|done].
    simpl. rewrite Hpre, Hs. simpl. by apply never_closes_no_middle. }
  destruct (split_first is_end l2)
    as [Hend|(rem & e & more & -> & Hrem & He)].
  { apply (Htail (Unterminated pre s (l1 ++ m :: l2))); [|done].
    simpl. rewrite Hpre, Hs. simpl. by rewrite never_closes_app. }
  destruct (IH (length more)) with (ls := more) as (d & Hd & Hlines);
    [|done|].
  { rewrite !length_app. simpl. rewrite !length_app. simpl.
    rewrite !length_app. simpl. lia. }
  destruct (sections_exist l1 Hl1) as (loc & bas & Hsec).
  assert (∃ b, well_formed_block b = true
               ∧ block_lines b = pre ++ s :: l1 ++ m :: rem ++ [e])
    as (b & Hb & Hblock).
  { destruct Hsec as [-> -> Hloc|sep -> Hsep Hloc Hbas].
    - exists (mkBlock pre s loc None m rem e).
      unfold well_formed_block, block_lines, base_section. simpl.
      by rewrite Hpre, Hs, Hloc, Hm, Hrem, He.
    - exists (mkBlock pre s loc (Some (sep, bas)) m rem e).
      unfold well_formed_block, block_lines, base_section. simpl.
      rewrite Hpre, Hs, Hloc, Hsep, Hbas, Hm, Hrem, He.
      split; [done|]. by rewrite <-app_assoc. }
  exists (mkDoc (b :: blocks d) (doc_tail d)). split.
  - unfold well_formed in *. simpl. by rewrite Hb.
  - unfold doc_lines in *. simpl. rewrite <-app_assoc, Hlines, Hblock.
    by repeat (rewrite <-?app_assoc; simpl; f_equal).
Qed.

(** ** The application and the diff helpers *)

Section Application.
Variable unified_diff : list string → list string → nat → list string.

Lemma get_value_set_value s tag tag' value :
  get_value (set_value s tag value) tag'
  = if decide (tag = tag') then value else get_value s tag'.
Proof.
  unfold get_value, set_value. simpl. rewrite lookup_insert.
  by destruct (decide (tag = tag')).
Qed.

Lemma get_value_with_selected s i tag :
  get_value (with_selected s i) tag = get_value s tag.
Proof. reflexivity. Qed.

Lemma get_value_with_conflicts s cs tag :
  get_value (with_conflicts s cs) tag = get_value s tag.
Proof. reflexivity. Qed.

Lemma rebase_self c lr : rebase c lr c = c.
Proof. unfold rebase. by rewrite Z.eqb_refl. Qed.

Lemma resolve_unfold s k v conflict :
  current_conflicts s !! k = Some conflict →
  let c' := mark_resolved_with conflict v
              (chosen_for v conflict) (rejected_for v conflict) in
  let lr := lines_removed_by conflict (chosen_for v conflict) in
  let lines := Py.splitlines (local_text s) in
  let s' := _resolve_single_conflict unified_diff s k v in
  current_conflicts s'
    = map (rebase c' lr) (<[k := c']> (current_conflicts s))
  ∧ local_text s'
    = Py.join_lines (Py.slice_to lines (start conflict)
                       ++ chosen_for v conflict
                       ++ Py.slice_from lines (end_ conflict + 1))
  ∧ git_repo s' = git_repo s
  ∧ current_file s' = current_file s
  ∧ original_conflicts s' = original_conflicts s
  ∧ original_content s' = original_content s
  ∧ selected_conflict_index s' = selected_conflict_index s.
Proof.
  intros Hk c' lr lines s'. subst s'.
  unfold _resolve_single_conflict. rewrite Hk.
  assert ((match v with
           | res_local => (local_content conflict, remote_content conflict)
           | res_remote => (remote_content conflict, local_content conflict)
           | res_base => (base_content conflict,
                          local_content conflict ++ remote_content conflict)
           end) = (chosen_for v conflict, rejected_for v conflict)) as ->
    by (by destruct v).
  unfold _show_rejection_preview, _update_working_copy_with_resolution,
    update_status, local_text.
  destruct (show_rejection_preview s) eqn:Hshow; simpl; rewrite ?Hshow; simpl;
    rewrite ?get_value_set_value; simpl; done.
Qed.

Lemma rebase_later c lr o :
  conflict_id o ≠ conflict_id c → start o > end_ c →
  start (rebase c lr o) = start o - lr
  ∧ middle (rebase c lr o) = middle o - lr
  ∧ end_ (rebase c lr o) = end_ o - lr.
Proof.
  intros Hid Hstart. unfold rebase.
  rewrite (proj2 (Z.eqb_neq _ _) Hid), (proj2 (Z.gtb_gt _ _)) by lia.
  done.
Qed.

Lemma rebase_not_later c lr o : start o ≤ end_ c → rebase c lr o = o.
Proof.
  intros Hstart. unfold rebase.
  destruct (start o >? end_ c) eqn:E; [apply Z.gtb_gt in E; lia|].
  by rewrite andb_false_r.
Qed.

Lemma ids_differ (cs : list ConflictMarkers) j k cj ck :
  NoDup (map conflict_id cs) → j ≠ k →
  cs !! j = Some cj → cs !! k = Some ck → conflict_id cj ≠ conflict_id ck.
Proof.
  intros Hnd Hjk Hj Hk Heq. apply Hjk.
  apply (NoDup_lookup _ j k (conflict_id cj) Hnd).
  - change (map conflict_id cs) with (conflict_id <$> cs).
    by rewrite list_lookup_fmap, Hj.
  - change (map conflict_id cs) with (conflict_id <$> cs).
    by rewrite list_lookup_fmap, Hk, Heq.
Qed.

Lemma resolve_lookup_other s k v conflict j other :
  current_conflicts s !! k = Some conflict → j ≠ k →
  current_conflicts s !! j = Some other →
  current_conflicts (_resolve_single_conflict unified_diff s k v) !! j
  = Some (rebase conflict
            (lines_removed_by conflict (chosen_for v conflict)) other).
Proof.
  intros Hk Hjk Hj.
  destruct (resolve_unfold s k v conflict Hk) as (-> & _).
  change (map ?f ?l) with (f <$> l).
  rewrite list_lookup_fmap, list_lookup_insert_ne, Hj by done.
  done.
Qed.

(** C1. Resolving the region at position [k], one whose markers are in
    order, in a store whose ids are distinct: every other region that
    starts after its end marker has [start], [middle] and [end] lowered by
    [(end - start + 1) - len(chosen lines)], a number that may be
    negative; every region that starts before its start marker is left
    as it was. *)
Theorem resolution_rebases_later_regions s k v conflict j other :
  NoDup (map conflict_id (current_conflicts s)) →
  current_conflicts s !! k = Some conflict →
  start conflict ≤ end_ conflict →
  j ≠ k → current_conflicts s !! j = Some other →
  let s' := _resolve_single_conflict unified_diff s k v in
  let lines_removed :=
    (end_ conflict - start conflict + 1)
    - Z.of_nat (length (chosen_for v conflict)) in
  (start other > end_ conflict →
   ∃ other', current_conflicts s' !! j = Some other'
             ∧ start other' = start other - lines_removed
             ∧ middle other' = middle other - lines_removed
             ∧ end_ other' = end_ other - lines_removed)
  ∧ (start other < start conflict → current_conflicts s' !! j = Some other).
Proof.
  intros Hnd Hk Hse Hjk Hj s' lr.
  pose proof (resolve_lookup_other s k v conflict j other Hk Hjk Hj) as Hj'.
  fold s' in Hj'. split.
  - intros Hlater. eexists. split; [exact Hj'|].
    apply rebase_later; [|done].
    by apply (ids_differ (current_conflicts s) j k).
  - intros Hearlier. rewrite Hj'. f_equal. apply rebase_not_later. lia.
Qed.

(** C6. Resolving a region with the local lines records the remote lines
    as rejected; with the remote lines, the local lines; with the base
    lines, which may be none, the local lines followed by the remote
    lines. The lines chosen are recorded as resolved. *)
Theorem resolve_records_choice s k conflict :
  current_conflicts s !! k = Some conflict →
  let resolved_with v :=
    current_conflicts (_resolve_single_conflict unified_diff s k v) !! k in
  (∃ c, resolved_with res_local = Some c
        ∧ is_resolved c = true
        ∧ resolved_lines c = Some (local_content conflict)
        ∧ rejected_lines c = Some (remote_content conflict))
  ∧ (∃ c, resolved_with res_remote = Some c
          ∧ is_resolved c = true
          ∧ resolved_lines c = Some (remote_content conflict)
          ∧ rejected_lines c = Some (local_content conflict))
  ∧ (∃ c, resolved_with res_base = Some c
          ∧ is_resolved c = true
          ∧ resolved_lines c = Some (base_content conflict)
          ∧ rejected_lines c
            = Some (local_content conflict ++ remote_content conflict)).
Proof.
  intros Hk resolved_with.
  assert (∀ v, resolved_with v
               = Some (mark_resolved_with conflict v (chosen_for v conflict)
                         (rejected_for v conflict))) as H.
  { intros v. unfold resolved_with.
    destruct (resolve_unfold s k v conflict Hk) as (-> & _).
    change (map ?f ?l) with (f <$> l).
    rewrite list_lookup_fmap, list_lookup_insert_eq
      by (by apply lookup_lt_Some in Hk).
    simpl. by rewrite rebase_self. }
  split_and!; eexists; (split; [apply H|done]).
Qed.


Lemma selection_valid_spec s :
  selection_valid s = true
  ↔ 0 ≤ selected_conflict_index s
      < Z.of_nat (length (current_conflicts s)).
Proof.
  unfold selection_valid. rewrite andb_true_iff, Z.geb_le, Z.ltb_lt. lia.
Qed.

Lemma selection_valid_lookup s :
  selection_valid s = true →
  ∃ c, current_conflicts s !! Z.to_nat (selected_conflict_index s) = Some c.
Proof.
  intros H%selection_valid_spec. apply lookup_lt_is_Some_2. lia.
Qed.

Lemma accept_conflict_valid v s :
  selection_valid s = true →
  accept_conflict unified_diff v s
  = _resolve_single_conflict unified_diff s
      (Z.to_nat (selected_conflict_index s)) v.
Proof.
  intros H. destruct v; simpl;
    unfold accept_local_conflict, accept_remote_conflict,
      accept_base_conflict; by rewrite H.
Qed.

Lemma accept_conflict_invalid v s :
  selection_valid s = false → accept_conflict unified_diff v s = s.
Proof.
  intros H. destruct v; simpl;
    unfold accept_local_conflict, accept_remote_conflict,
      accept_base_conflict; by rewrite H.
Qed.

Lemma resolve_length s k v :
  length (current_conflicts (_resolve_single_conflict unified_diff s k v))
  = length (current_conflicts s).
Proof.
  destruct (current_conflicts s !! k) as [c|] eqn:Hk.
  - destruct (resolve_unfold s k v c Hk) as (-> & _).
    by rewrite length_map, length_insert.
  - unfold _resolve_single_conflict. by rewrite Hk.
Qed.

(** C9. When the selection designates no region of the store, the three
    [accept_*_conflict] methods and [revert_conflict] leave the whole
    application as it is, and [revert_conflict] raises nothing. *)
Theorem unknown_region_noop w s :
  ¬ (0 ≤ selected_conflict_index s
       < Z.of_nat (length (current_conflicts s))) →
  accept_local_conflict unified_diff s = s
  ∧ accept_remote_conflict unified_diff s = s
  ∧ accept_base_conflict unified_diff s = s
  ∧ revert_conflict w s = Some s.
Proof.
  intros H. assert (selection_valid s = false) as Hinv.
  { destruct (selection_valid s) eqn:E; [|done].
    by apply selection_valid_spec in E. }
  unfold accept_local_conflict, accept_remote_conflict,
    accept_base_conflict, revert_conflict. by rewrite Hinv.
Qed.

Lemma load_conflicted_file_returns w s repo file working_copy :
  git_repo s = Some repo →
  read_text w (repo_path repo) file = Returns working_copy →
  let s' := load_conflicted_file w s file in
  local_text s' = working_copy
  ∧ original_content s' = working_copy
  ∧ current_conflicts s' = parse_conflict_markers working_copy
  ∧ original_conflicts s' = map backup (parse_conflict_markers working_copy).
Proof.
  intros Hrepo Hread. unfold load_conflicted_file. rewrite Hrepo.
  simpl. rewrite Hread. unfold update_status, local_text.
  rewrite get_value_set_value, get_value_with_selected.
  rewrite !get_value_set_value. simpl. done.
Qed.

(** C3, amended. In a session on a loaded file: resolving the selected
    region, whatever the variant, and then reverting it puts the text
    taken at load time back in the Document, unchanged, and the regions
    are the ones parsed from that text. That text is the Document as it
    was before the resolution when no other resolution came first, and
    only then: the reload forgets the others. *)
Theorem resolve_then_revert w s v :
  in_session w s →
  0 ≤ selected_conflict_index s < Z.of_nat (length (current_conflicts s)) →
  ∃ s', revert_conflict w (accept_conflict unified_diff v s) = Some s'
        ∧ local_text s' = original_content s
        ∧ original_content s' = original_content s
        ∧ current_conflicts s'
          = parse_conflict_markers (original_content s)
        ∧ (local_text s' = local_text s
           ↔ local_text s = original_content s).
Proof.
  intros (repo & file & Hrepo & Hfile & Hread & Hlen) Hsel.
  apply selection_valid_spec in Hsel as Hvalid.
  rewrite (accept_conflict_valid v s Hvalid).
  set (k := Z.to_nat (selected_conflict_index s)).
  destruct (selection_valid_lookup s Hvalid) as [c Hc]. fold k in Hc.
  destruct (resolve_unfold s k v c Hc)
    as (_ & _ & Hrepo' & Hfile' & Horig' & _ & Hidx').
  set (s1 := _resolve_single_conflict unified_diff s k v) in *.
  assert (length (current_conflicts s1) = length (current_conflicts s))
    as Hlen1 by apply resolve_length.
  assert (selection_valid s1 = true) as Hvalid1.
  { apply selection_valid_spec. rewrite Hidx', Hlen1. done. }
  unfold revert_conflict. rewrite Hvalid1, Hidx'. fold k.
  destruct (lookup_lt_is_Some_2 (current_conflicts s1) k) as [c1 Hc1];
    [rewrite Hlen1; lia|].
  destruct (lookup_lt_is_Some_2 (original_conflicts s1) k) as [o1 Ho1];
    [rewrite Horig', Hlen; lia|].
  rewrite Hc1, Ho1.
  change (current_file (with_conflicts s1 ?cs)) with (current_file s1).
  rewrite Hfile', Hfile.
  eexists. split; [done|].
  match goal with
  | |- context [load_conflicted_file w ?s2 file] =>
      destruct (load_conflicted_file_returns w s2 repo file
                  (original_content s))
        as (Htext & Hcontent & Hconf & _);
        [change (git_repo s1 = Some repo); by rewrite Hrepo'|done|]
  end.
  unfold update_status, local_text in *.
  rewrite get_value_set_value. simpl. rewrite Htext, Hcontent, Hconf.
  split_and!; [done..|]. split; congruence.
Qed.

Lemma load_in_session w s repo file text :
  git_repo s = Some repo →
  read_text w (repo_path repo) file = Returns text →
  in_session w (load_conflicted_file w s file).
Proof.
  intros Hrepo Hread. exists repo, file.
  destruct (load_conflicted_file_returns w s repo file text Hrepo Hread)
    as (_ & -> & -> & ->).
  unfold load_conflicted_file. rewrite Hrepo, Hread. simpl.
  by rewrite length_map.
Qed.

Lemma accept_in_session w v s :
  in_session w s → in_session w (accept_conflict unified_diff v s).
Proof.
  intros (repo & file & Hrepo & Hfile & Hread & Hlen).
  destruct (selection_valid s) eqn:Hvalid;
    [|by rewrite accept_conflict_invalid; [exists repo, file|]].
  rewrite accept_conflict_valid by done.
  destruct (selection_valid_lookup s Hvalid) as [c Hc].
  destruct (resolve_unfold s _ v c Hc)
    as (_ & _ & Hrepo' & Hfile' & Horig' & Hcontent' & _).
  exists repo, file.
  rewrite Hrepo', Hfile', Horig', Hcontent', resolve_length. done.
Qed.

Lemma load_store_ordered w s repo file text :
  git_repo s = Some repo →
  read_text w (repo_path repo) file = Returns text →
  store_ordered (load_conflicted_file w s file).
Proof.
  intros Hrepo Hread. unfold store_ordered.
  destruct (load_conflicted_file_returns w s repo file text Hrepo Hread)
    as (_ & _ & -> & _).
  split; [apply parse_ids_distinct|].
  destruct (parse_at_invariant (length (Py.splitlines text)) []
              (Py.splitlines text) 0) as [Hall _]; [done|].
  eapply Forall_impl; [exact Hall|]. by intros c (_ & [? _] & _).
Qed.

Lemma rebase_conflict_id c lr o : conflict_id (rebase c lr o) = conflict_id o.
Proof. unfold rebase. by case_match. Qed.

Lemma rebase_ordered c lr o :
  start o < middle o < end_ o →
  start (rebase c lr o) < middle (rebase c lr o) < end_ (rebase c lr o).
Proof. unfold rebase. case_match; simpl; lia. Qed.

Lemma accept_store_ordered v s :
  store_ordered s → store_ordered (accept_conflict unified_diff v s).
Proof.
  intros [Hids Hord].
  destruct (selection_valid s) eqn:Hvalid;
    [|by rewrite accept_conflict_invalid].
  rewrite accept_conflict_valid by done.
  destruct (selection_valid_lookup s Hvalid) as [c Hc].
  set (k := Z.to_nat (selected_conflict_index s)) in *.
  destruct (resolve_unfold s k v c Hc) as (Hcs & _).
  unfold store_ordered. rewrite Hcs. split.
  - rewrite map_map.
    erewrite map_ext; [|intros; apply rebase_conflict_id].
    change (map conflict_id ?l) with (conflict_id <$> l).
    rewrite list_fmap_insert. simpl.
    rewrite list_insert_id; [done|].
    by rewrite list_lookup_fmap, Hc.
  - apply Forall_map. apply Forall_insert.
    + eapply Forall_impl; [exact Hord|]. intros o Ho. by apply rebase_ordered.
    + apply rebase_ordered. simpl.
      rewrite Forall_forall in Hord. apply Hord.
      by eapply list_elem_of_lookup_2.
Qed.


Lemma resolve_same_store s1 s2 k v :
  same_store s1 s2 →
  same_store (_resolve_single_conflict unified_diff s1 k v)
             (_resolve_single_conflict unified_diff s2 k v).
Proof.
  intros [Hcs Htext]. unfold same_store.
  destruct (current_conflicts s1 !! k) as [c|] eqn:Hk.
  - destruct (resolve_unfold s1 k v c Hk) as (-> & -> & _).
    rewrite Hcs in Hk.
    destruct (resolve_unfold s2 k v c Hk) as (-> & -> & _).
    by rewrite Hcs, Htext.
  - unfold _resolve_single_conflict. rewrite Hk. rewrite Hcs in Hk.
    by rewrite Hk.
Qed.

Lemma on_conflict_selected_valid s k :
  (k < length (current_conflicts s))%nat →
  let s' := on_conflict_selected s (Z.of_nat k) in
  same_store s' s ∧ selected_conflict_index s' = Z.of_nat k.
Proof.
  intros Hk. unfold on_conflict_selected.
  destruct (current_conflicts s) as [|c0 cs] eqn:Hcs; [simpl in Hk; lia|].
  cbn [selected_conflict_index with_selected current_conflicts].
  destruct (Z.of_nat k <? 0) eqn:E; [apply Z.ltb_lt in E; lia|].
  rewrite Hcs, Nat2Z.id.
  destruct (lookup_lt_is_Some_2 (c0 :: cs) k Hk) as [c ->].
  unfold same_store, update_status, local_text.
  rewrite get_value_set_value. simpl. by rewrite Hcs.
Qed.

Lemma select_accept_same_store s k v :
  (k < length (current_conflicts s))%nat →
  same_store
    (accept_conflict unified_diff v (on_conflict_selected s (Z.of_nat k)))
    (_resolve_single_conflict unified_diff s k v).
Proof.
  intros Hk. destruct (on_conflict_selected_valid s k Hk) as [Hsame Hidx].
  rewrite accept_conflict_valid.
  - rewrite Hidx, Nat2Z.id. by apply resolve_same_store.
  - apply selection_valid_spec. rewrite Hidx. destruct Hsame as [-> _]. lia.
Qed.

Lemma rebase_is_resolved c lr o :
  is_resolved (rebase c lr o) = is_resolved o.
Proof. unfold rebase. by case_match. Qed.

Lemma resolve_unresolved_at s k v j :
  j ≠ k →
  unresolved_at
    (current_conflicts (_resolve_single_conflict unified_diff s k v)) j
  = unresolved_at (current_conflicts s) j.
Proof.
  intros Hjk. unfold unresolved_at.
  destruct (current_conflicts s !! k) as [c|] eqn:Hk.
  - destruct (current_conflicts s !! j) as [o|] eqn:Hj.
    + rewrite (resolve_lookup_other s k v c j o Hk Hjk Hj).
      by rewrite rebase_is_resolved.
    + apply lookup_ge_None in Hj.
      rewrite (proj2 (lookup_ge_None _ _)); [done|].
      by rewrite resolve_length.
  - unfold _resolve_single_conflict. by rewrite Hk.
Qed.

Lemma resolve_turns_filter v ks s :
  NoDup ks →
  fold_left (resolve_turn unified_diff v) ks s
  = fold_left (λ s k, _resolve_single_conflict unified_diff s k v)
      (List.filter (unresolved_at (current_conflicts s)) ks) s.
Proof.
  intros Hnd. revert s. induction Hnd as [|k ks Hk Hnd IH]; intros s; [done|].
  cbn [fold_left List.filter]. unfold resolve_turn at 2, unresolved_at at 1.
  destruct (current_conflicts s !! k) as [c|] eqn:Hc; [|apply IH].
  destruct (is_resolved c); cbn [negb]; [apply IH|].
  cbn [fold_left]. rewrite IH. f_equal.
  apply filter_ext_in. intros j Hj. apply resolve_unresolved_at.
  intros ->. apply Hk. by apply list_elem_of_In.
Qed.

Lemma one_by_one_same_store v n ks s1 s2 :
  same_store s1 s2 → length (current_conflicts s2) = n →
  Forall (λ k, (k < n)%nat) ks →
  same_store
    (fold_left (λ s k, accept_conflict unified_diff v
                         (on_conflict_selected s (Z.of_nat k))) ks s1)
    (fold_left (λ s k, _resolve_single_conflict unified_diff s k v) ks s2).
Proof.
  intros Hsame Hn Hks. revert s1 s2 Hsame Hn.
  induction Hks as [|k ks Hk Hks IH]; intros s1 s2 Hsame Hn; [done|].
  cbn [fold_left]. apply IH; [|by rewrite resolve_length].
  destruct Hsame as [Hcs Htext].
  destruct (select_accept_same_store s1 k v) as [Hcs' Htext'];
    [rewrite Hcs; lia|].
  destruct (resolve_same_store s1 s2 k v) as [Hcs'' Htext'']; [done|].
  split; congruence.
Qed.

Lemma unresolved_positions_bound cs :
  Forall (λ k, (k < length cs)%nat) (unresolved_positions cs).
Proof.
  apply Forall_forall. intros k Hk%list_elem_of_In.
  apply filter_In in Hk as [Hk%in_seq _]. lia.
Qed.

Lemma sorted_lookup {A} (R : A → A → Prop) (l : list A) i j a b :
  StronglySorted R l → (i < j)%nat →
  l !! i = Some a → l !! j = Some b → R a b.
Proof.
  intros Hsorted. revert i j.
  induction Hsorted as [|x l Hsorted IH Hx]; intros i j Hij Hi Hj; [done|].
  destruct j as [|j]; [lia|]. simpl in Hj.
  destruct i as [|i]; simpl in Hi.
  - injection Hi as <-. rewrite Forall_forall in Hx. apply Hx.
    by eapply list_elem_of_lookup_2.
  - apply (IH i j); [lia|done..].
Qed.

Lemma sorted_filter {A} (R : A → A → Prop) (p : A → bool) (l : list A) :
  StronglySorted R l → StronglySorted R (List.filter p l).
Proof.
  induction 1 as [|x l Hsorted IH Hx]; [constructor|]. simpl.
  destruct (p x); [|done]. constructor; [done|].
  rewrite Forall_forall in *.
  intros y [Hy _]%list_elem_of_In%filter_In. by apply Hx, list_elem_of_In.
Qed.

Lemma sorted_seq start len : StronglySorted lt (seq start len).
Proof.
  revert start. induction len as [|len IH]; intros start; [constructor|].
  simpl. constructor; [apply IH|].
  apply Forall_forall. intros k Hk%list_elem_of_In%in_seq. lia.
Qed.

Lemma resolve_with_version_fold s v :
  same_store (resolve_with_version unified_diff s v)
    (fold_left (λ s k, _resolve_single_conflict unified_diff s k v)
       (unresolved_positions (current_conflicts s)) s).
Proof.
  unfold resolve_with_version, unresolved_positions.
  destruct (current_conflicts s) as [|c0 cs] eqn:E; [done|].
  rewrite <-E.
  rewrite resolve_turns_filter by apply NoDup_ListNoDup, seq_NoDup.
  unfold same_store, update_status, local_text.
  by rewrite get_value_set_value.
Qed.

(** C4. [resolve_with_version] leaves the Document and the regions that
    selecting and accepting the unresolved regions one after the other,
    in the order of the list, leaves; in a store sorted by [start], as
    the parser returns it, that order is the ascending order of
    [start]. *)
Theorem resolve_all_one_by_one s v :
  StronglySorted (λ c1 c2, start c1 < start c2) (current_conflicts s) →
  let positions := unresolved_positions (current_conflicts s) in
  let one_by_one :=
    fold_left (λ s k, accept_conflict unified_diff v
                        (on_conflict_selected s (Z.of_nat k)))
              positions s in
  local_text (resolve_with_version unified_diff s v) = local_text one_by_one
  ∧ current_conflicts (resolve_with_version unified_diff s v)
    = current_conflicts one_by_one
  ∧ StronglySorted
      (λ k1 k2, ∃ c1 c2, current_conflicts s !! k1 = Some c1
                         ∧ current_conflicts s !! k2 = Some c2
                         ∧ start c1 < start c2) positions.
Proof.
  intros Hsorted positions one_by_one.
  assert (same_store (resolve_with_version unified_diff s v) one_by_one)
    as [Hcs Htext].
  { destruct (one_by_one_same_store v (length (current_conflicts s))
                positions s s) as [Hcs Htext];
      [done|done|apply unresolved_positions_bound|].
    destruct (resolve_with_version_fold s v) as [Hcs' Htext'].
    unfold one_by_one, positions in *.
    split; [by rewrite Hcs', Hcs|by rewrite Htext', Htext]. }
  split_and!; [done..|].
  pose proof (sorted_filter lt (unresolved_at (current_conflicts s)) _
                (sorted_seq 0 (length (current_conflicts s)))) as Hpos.
  fold (unresolved_positions (current_conflicts s)) in Hpos.
  fold positions in Hpos.
  pose proof (unresolved_positions_bound (current_conflicts s)) as Hbound.
  fold positions in Hbound. clearbody positions. clear one_by_one Hcs Htext.
  induction Hpos as [|k ks Hks IH Hk]; [constructor|].
  inversion Hbound as [|? ? Hkb Hksb]; subst.
  constructor; [by apply IH|].
  rewrite Forall_forall in *. intros k2 Hk2.
  destruct (lookup_lt_is_Some_2 (current_conflicts s) k Hkb) as [c1 Hc1].
  destruct (lookup_lt_is_Some_2 (current_conflicts s) k2 (Hksb k2 Hk2))
    as [c2 Hc2].
  exists c1, c2. split_and!; [done..|].
  by apply (sorted_lookup _ (current_conflicts s) k k2 c1 c2 Hsorted
              (Hk k2 Hk2)).
Qed.


(** ** The diff helpers *)

Lemma contains_prefix needle rest : contains needle (needle +:+ rest) = true.
Proof.
  assert (String.prefix needle (needle +:+ rest) = true) as H.
  { induction needle as [|c needle IH]; [by destruct rest|].
    simpl. by destruct (ascii_dec c c). }
  destruct needle; simpl in *; [by destruct rest|]. by rewrite H.
Qed.

Lemma contains_cons needle c hay :
  contains needle (String c hay)
  = String.prefix needle (String c hay) || contains needle hay.
Proof. reflexivity. Qed.

Lemma contains_append needle before hay :
  contains needle hay = true → contains needle (before +:+ hay) = true.
Proof.
  intros H. induction before as [|c before IH]; [done|].
  simpl. rewrite IH. apply orb_true_r.
Qed.

Lemma join_lines_cons l l' ls :
  Py.join_lines (l :: l' :: ls)
  = l +:+ String Py.LF "" +:+ Py.join_lines (l' :: ls).
Proof. reflexivity. Qed.

(** C10. With no rejected line the preview is the fixed text, whatever
    the chosen lines are: it is neither the block annotated as identical
    nor a rendered diff. *)
Theorem rejection_preview_no_alternative chosen_content :
  create_rejection_preview unified_diff chosen_content []
  = "// No alternative content to show"
  ∧ reports_identical
      (create_rejection_preview unified_diff chosen_content [])
    = false.
Proof. split; reflexivity. Qed.

(** C5, as the program has it. For lines that are not empty, the preview
    of the lines against themselves is the block annotated
    "(Identical to chosen content)". *)
Theorem rejection_preview_identical lines :
  lines ≠ [] →
  create_rejection_preview unified_diff lines lines
  = Py.join_lines
      (["// ===== REJECTED ALTERNATIVE =====";
        "// (Identical to chosen content)"]
       ++ map (λ line, "// " +:+ line) lines
       ++ ["// ===== END REJECTED ====="])
  ∧ reports_identical (create_rejection_preview unified_diff lines lines)
    = true.
Proof.
  intros Hne. destruct lines as [|l ls]; [done|].
  assert (create_rejection_preview unified_diff (l :: ls) (l :: ls)
          = Py.join_lines
              (["// ===== REJECTED ALTERNATIVE =====";
                "// (Identical to chosen content)"]
               ++ map (λ line, "// " +:+ line) (l :: ls)
               ++ ["// ===== END REJECTED ====="])) as ->.
  { unfold create_rejection_preview.
    rewrite bool_decide_eq_true_2 by done. by rewrite <-app_assoc. }
  split; [done|].
  unfold reports_identical. apply orb_true_iff. left.
  cbn [app]. rewrite join_lines_cons.
  apply contains_append, contains_append.
  cbn [map app]. rewrite join_lines_cons.
  apply (contains_append _ "// ").
  exact (contains_prefix "(Identical to chosen content)" _).
Qed.

(** C7. When [difflib.unified_diff] prints nothing for equal inputs,
    [generate_line_diff] of a list of lines against itself is empty. *)
Theorem generate_line_diff_identity lines :
  (∀ a, unified_diff a a 0 = []) →
  generate_line_diff unified_diff lines lines = [].
Proof.
  intros Hsame. unfold generate_line_diff. rewrite Hsame. by destruct lines.
Qed.

End Application.

(** ** The properties on the sample session *)

Lemma parse_well_formed_witness :
  Py.splitlines Sample.text = doc_lines Sample.doc
  ∧ well_formed Sample.doc = true
  ∧ parse_conflict_markers Sample.text
    = [Sample.first_region; Sample.second_region].
Proof.
  split; [reflexivity|]. split; [reflexivity|].
  apply (parse_well_formed Sample.text Sample.doc); reflexivity.
Defined.

Lemma resolution_rebases_later_regions_witness :
  NoDup (map conflict_id (current_conflicts Sample.loaded))
  ∧ current_conflicts Sample.loaded !! 0%nat = Some Sample.first_region
  ∧ start Sample.first_region ≤ end_ Sample.first_region
  ∧ 1%nat ≠ 0%nat
  ∧ current_conflicts Sample.loaded !! 1%nat = Some Sample.second_region
  ∧ (start Sample.second_region > end_ Sample.first_region →
     ∃ other',
       current_conflicts
         (_resolve_single_conflict WholeFileDiff.unified_diff
            Sample.loaded 0 res_local) !! 1%nat = Some other'
       ∧ start other' = 7 - 4 ∧ middle other' = 11 - 4
       ∧ end_ other' = 14 - 4).
Proof.
  assert (NoDup (map conflict_id (current_conflicts Sample.loaded))) as Hnd.
  { apply (bool_decide_unpack _). vm_compute. exact I. }
  split; [exact Hnd|]. split; [reflexivity|]. split; [simpl; lia|].
  split; [lia|]. split; [reflexivity|].
  apply (resolution_rebases_later_regions WholeFileDiff.unified_diff
           Sample.loaded 0 res_local Sample.first_region 1
           Sample.second_region Hnd);
    [reflexivity|simpl; lia|lia|reflexivity].
Defined.

Lemma resolve_records_choice_witness :
  current_conflicts Sample.loaded !! 1%nat = Some Sample.second_region
  ∧ ∃ c, current_conflicts
           (_resolve_single_conflict WholeFileDiff.unified_diff
              Sample.loaded 1 res_base) !! 1%nat = Some c
         ∧ resolved_lines c = Some ["d"]
         ∧ rejected_lines c = Some ["c"; "e"; "f"].
Proof.
  split; [reflexivity|].
  destruct (resolve_records_choice WholeFileDiff.unified_diff Sample.loaded
              1 Sample.second_region)
    as (_ & _ & c & Hc & _ & Hchosen & Hrejected); [reflexivity|].
  exists c. split; [exact Hc|]. split; [exact Hchosen|exact Hrejected].
Defined.

Lemma unknown_region_noop_witness :
  ¬ (0 ≤ selected_conflict_index Sample.initial
       < Z.of_nat (length (current_conflicts Sample.initial)))
  ∧ accept_local_conflict WholeFileDiff.unified_diff Sample.initial
    = Sample.initial
  ∧ revert_conflict Sample.world Sample.initial = Some Sample.initial.
Proof.
  assert (¬ (0 ≤ selected_conflict_index Sample.initial
               < Z.of_nat (length (current_conflicts Sample.initial))))
    as H by (simpl; lia).
  split; [exact H|].
  destruct (unknown_region_noop WholeFileDiff.unified_diff Sample.world
              Sample.initial H) as (Hl & _ & _ & Hr).
  split; [exact Hl|exact Hr].
Defined.

Lemma resolve_then_revert_witness :
  in_session Sample.world Sample.loaded
  ∧ 0 ≤ selected_conflict_index Sample.loaded
      < Z.of_nat (length (current_conflicts Sample.loaded))
  ∧ ∃ s', revert_conflict Sample.world
            (accept_conflict WholeFileDiff.unified_diff res_remote
               Sample.loaded) = Some s'
          ∧ local_text s' = Sample.text.
Proof.
  assert (in_session Sample.world Sample.loaded) as Hsession.
  { exists Sample.repo, Sample.file. repeat split; reflexivity. }
  split; [exact Hsession|]. split; [simpl; lia|].
  destruct (resolve_then_revert WholeFileDiff.unified_diff Sample.world
              Sample.loaded res_remote Hsession)
    as (s' & Hrev & Htext & _); [simpl; lia|].
  exists s'. split; [exact Hrev|exact Htext].
Defined.

(** C3 as stated fails: with the first region resolved before, resolving
    the second and reverting it gives the text of the file, not the
    Document as it was before that resolution. *)
Lemma revert_forgets_earlier_resolution :
  in_session Sample.world Cases.later
  ∧ selected_conflict_index Cases.later = 1
  ∧ local_text Cases.later
    = Py.join_lines
        ["intro"; "a"; "between"; "<<<<<<< HEAD"; "c"; "||||||| ancestor";
         "d"; "======="; "e"; "f"; ">>>>>>> branch"; "outro"]
  ∧ local_text
      <$> revert_conflict Sample.world
            (accept_conflict WholeFileDiff.unified_diff res_remote
               Cases.later)
    = Some Sample.text
  ∧ Sample.text ≠ local_text Cases.later.
Proof.
  split; [exists Sample.repo, Sample.file; repeat split; reflexivity|].
  split; [reflexivity|]. split; [reflexivity|]. split; [reflexivity|].
  vm_compute. discriminate.
Qed.

(** In the store of [Sample.edited], whose third region was typed in and
    has no backup, resolving that region and reverting it raises. *)
Lemma resolve_then_revert_raises_after_edit :
  revert_conflict Sample.world
    (accept_conflict WholeFileDiff.unified_diff res_local Sample.edited)
  = None.
Proof. reflexivity. Qed.

Lemma resolve_all_one_by_one_witness :
  StronglySorted (λ c1 c2, start c1 < start c2)
    (current_conflicts Sample.loaded)
  ∧ local_text
      (resolve_with_version WholeFileDiff.unified_diff Sample.loaded
         res_remote)
    = local_text
        (fold_left
           (λ s k, accept_conflict WholeFileDiff.unified_diff res_remote
                     (on_conflict_selected s (Z.of_nat k)))
           [0%nat; 1%nat] Sample.loaded).
Proof.
  assert (StronglySorted (λ c1 c2, start c1 < start c2)
            (current_conflicts Sample.loaded)) as H.
  { repeat constructor; simpl; lia. }
  split; [exact H|].
  exact (proj1 (resolve_all_one_by_one WholeFileDiff.unified_diff
                  Sample.loaded res_remote H)).
Defined.

Lemma rejection_preview_identical_witness :
  ["a"] ≠ []
  ∧ reports_identical
      (create_rejection_preview WholeFileDiff.unified_diff ["a"] ["a"])
    = true.
Proof.
  assert (["a"] ≠ ([] : list string)) as H by discriminate.
  split; [exact H|].
  exact (proj2 (rejection_preview_identical WholeFileDiff.unified_diff
                  ["a"] H)).
Defined.

(** C5 as stated fails: with no line on either side, equal as they are,
    the preview is the fixed text and says nothing of identity. *)
Lemma empty_preview_not_identical :
  create_rejection_preview WholeFileDiff.unified_diff [] []
  = "// No alternative content to show"
  ∧ reports_identical
      (create_rejection_preview WholeFileDiff.unified_diff [] [])
    = false.
Proof. split; reflexivity. Qed.

Lemma generate_line_diff_identity_witness :
  (∀ a, WholeFileDiff.unified_diff a a 0 = [])
  ∧ generate_line_diff WholeFileDiff.unified_diff ["a"; "b"] ["a"; "b"] = [].
Proof.
  assert (∀ a, WholeFileDiff.unified_diff a a 0 = []) as H.
  { intros a. unfold WholeFileDiff.unified_diff.
    destruct (bool_decide (a = a)) eqn:E; [reflexivity|].
    apply bool_decide_eq_false in E. destruct (E eq_refl). }
  split; [exact H|].
  exact (generate_line_diff_identity WholeFileDiff.unified_diff
           ["a"; "b"] H).
Defined.

(** A region typed into the working copy has no backup: reverting it
    raises. Such a state is no session in the sense of [in_session]. *)
Lemma revert_raises_after_edit :
  length (current_conflicts Sample.edited) = 3%nat
  ∧ selected_conflict_index Sample.edited = 2
  ∧ revert_conflict Sample.world Sample.edited = None.
Proof. repeat split; reflexivity. Qed.

(** * Further properties *)



(** ** Lines and texts *)

Lemma append_cons c s t : String c s +:+ t = String c (s +:+ t).
Proof. reflexivity. Qed.

Lemma append_empty_r s : s +:+ "" = s.
Proof.
  induction s as [|c s IH]; [done|]. by rewrite append_cons, IH.
Qed.

Lemma append_assoc_char s c t : (s +:+ String c "") +:+ t = s +:+ String c t.
Proof.
  induction s as [|c' s IH]; [done|]. by rewrite !append_cons, IH.
Qed.

Lemma splitlines_from_line cur l rest :
  one_line l = true →
  Py.splitlines_from cur (l +:+ String Py.LF rest)
  = (cur +:+ l) :: Py.splitlines_from "" rest.
Proof.
  revert cur. induction l as [|c l IH]; intros cur Hl.
  - rewrite append_empty_r. change ("" +:+ ?x) with x.
    by destruct rest.
  - simpl in Hl. apply andb_prop in Hl as [Hc Hl].
    apply negb_true_iff in Hc. rewrite append_cons.
    cbn [Py.splitlines_from]. rewrite Hc, IH by done.
    by rewrite append_assoc_char.
Qed.

Lemma splitlines_from_last cur l :
  one_line l = true →
  Py.splitlines_from cur l
  = if String.eqb (cur +:+ l) "" then [] else [cur +:+ l].
Proof.
  revert cur. induction l as [|c l IH]; intros cur Hl.
  - by rewrite append_empty_r.
  - simpl in Hl. apply andb_prop in Hl as [Hc Hl].
    apply negb_true_iff in Hc. cbn [Py.splitlines_from].
    rewrite Hc, IH by done. by rewrite append_assoc_char.
Qed.

(** [splitlines] undoes [join] on lines that hold no boundary, except for
    an empty last line. *)
Lemma splitlines_join_lines ls :
  Forall (λ l, one_line l = true) ls →
  last ls ≠ Some "" →
  Py.splitlines (Py.join_lines ls) = ls.
Proof.
  unfold Py.splitlines.
  induction 1 as [|l ls Hl Hls IH]; intros Hlast; [reflexivity|].
  destruct ls as [|l' ls].
  - change (Py.join_lines [l]) with l.
    rewrite splitlines_from_last by done. change ("" +:+ l) with l.
    destruct (String.eqb_spec l ""); [|done]. subst. by destruct Hlast.
  - change (Py.join_lines (l :: l' :: ls))
      with (l +:+ String Py.LF (Py.join_lines (l' :: ls))).
    rewrite splitlines_from_line by done.
    change ("" +:+ l) with l. f_equal.
    apply IH. by rewrite last_cons_cons in Hlast.
Qed.

Lemma splitlines_join_prefix ls :
  Forall (λ l, one_line l = true) ls →
  Py.splitlines (Py.join_lines ls) `prefix_of` ls.
Proof.
  unfold Py.splitlines. induction 1 as [|l ls Hl Hls IH]; [by exists []|].
  destruct ls as [|l' ls].
  - change (Py.join_lines [l]) with l.
    rewrite splitlines_from_last by done. change ("" +:+ l) with l.
    destruct (String.eqb l ""); [by exists [l]|by exists []].
  - change (Py.join_lines (l :: l' :: ls))
      with (l +:+ String Py.LF (Py.join_lines (l' :: ls))).
    rewrite splitlines_from_line by done. change ("" +:+ l) with l.
    by apply prefix_cons.
Qed.

Lemma one_line_snoc cur c :
  one_line cur = true → Py.is_linebreak c = false →
  one_line (cur +:+ String c "") = true.
Proof.
  intros Hcur Hc. induction cur as [|c' cur IH]; simpl.
  - by rewrite Hc.
  - simpl in *. apply andb_prop in Hcur as [-> Hcur]. by rewrite IH.
Qed.

Lemma one_line_append l1 l2 :
  one_line l1 = true → one_line l2 = true → one_line (l1 +:+ l2) = true.
Proof.
  intros H1 H2. induction l1 as [|c l1 IH]; [done|].
  simpl in *. apply andb_prop in H1 as [-> H1]. by rewrite IH.
Qed.

Lemma splitlines_from_one_line n s cur :
  (String.length s ≤ n)%nat → one_line cur = true →
  Forall (λ l, one_line l = true) (Py.splitlines_from cur s).
Proof.
  revert s cur. induction n as [|n IH]; intros s cur Hn Hcur.
  { destruct s; [|simpl in Hn; lia]. simpl.
    by destruct (String.eqb cur ""); repeat constructor. }
  destruct s as [|c rest]; simpl.
  { by destruct (String.eqb cur ""); repeat constructor. }
  simpl in Hn. destruct (Py.is_linebreak c) eqn:Hc.
  - destruct rest as [|c' rest']; [by repeat constructor|].
    simpl in Hn.
    destruct (Ascii.eqb c Py.CR && Ascii.eqb c' Py.LF);
      (constructor; [done|]); apply IH; simpl; try done; lia.
  - apply IH; [lia|]. by apply one_line_snoc.
Qed.

Lemma splitlines_one_line text :
  Forall (λ l, one_line l = true) (Py.splitlines text).
Proof. by apply (splitlines_from_one_line (String.length text)). Qed.

(** ** What the parser returns for any text *)





(** X2. Every text has the shape the parser reads, and the parser returns the
    regions of that shape. *)
Theorem parse_reads_layout content :
  ∃ d, well_formed d = true
       ∧ doc_lines d = Py.splitlines content
       ∧ parse_conflict_markers content = regions d.
Proof.
  destruct (layout_exists (Py.splitlines content)) as (d & Hwf & Hlines).
  exists d. split_and!; [done..|].
  unfold parse_conflict_markers, parse_lines. rewrite <-Hlines.
  apply andb_prop in Hwf as [Hbs Ht]. by apply parse_at_doc.
Qed.

(** X3. The ids of the regions of any text count up from 0. *)
Theorem parse_ids_sequential content :
  map conflict_id (parse_conflict_markers content)
  = map Z.of_nat (seq 0 (length (parse_conflict_markers content))).
Proof.
  unfold parse_conflict_markers, parse_lines.
  fold (parse_at 0 (Py.splitlines content) 0).
  rewrite parse_at_ids at 1. by apply map_ext.
Qed.

Lemma none_of_lookup p (ls : list string) i l :
  none_of p ls = true → ls !! i = Some l → p l = false.
Proof.
  intros Hnone Hl. unfold none_of in Hnone. rewrite forallb_forall in Hnone.
  apply negb_true_iff, Hnone, list_elem_of_In. by eapply list_elem_of_lookup_2.
Qed.

(** X4. A text that lacks one of the three markers has no region. *)
Theorem parse_needs_markers content :
  none_of is_start (Py.splitlines content) = true
  ∨ none_of is_middle (Py.splitlines content) = true
  ∨ none_of is_end (Py.splitlines content) = true →
  parse_conflict_markers content = [].
Proof.
  intros Hnone.
  destruct (parse_at_invariant (length (Py.splitlines content)) []
              (Py.splitlines content) 0) as [Hall _]; [done|].
  unfold parse_conflict_markers, parse_lines.
  change (parse_loop (length (Py.splitlines content)) 0
            (Py.splitlines content) 0)
    with (parse_at (length (@nil string)) (Py.splitlines content) 0).
  destruct (parse_at (length (@nil string)) (Py.splitlines content) 0)
    as [|c cs]; [done|].
  apply Forall_cons in Hall
    as [(_ & _ & (_ & ls & Hs & His) & (_ & lm & Hm & Him)
         & (_ & le & He & Hie) & _) _].
  simpl in Hs, Hm, He.
  destruct Hnone as [H|[H|H]].
  - by rewrite (none_of_lookup _ _ _ _ H Hs) in His.
  - by rewrite (none_of_lookup _ _ _ _ H Hm) in Him.
  - by rewrite (none_of_lookup _ _ _ _ H He) in Hie.
Qed.

Lemma parse_at_unresolved i ls cid :
  Forall (λ c, is_resolved c = false) (parse_at i ls cid).
Proof.
  apply (parse_at_ind (λ _ _ _ cs, Forall (λ c, is_resolved c = false) cs));
    clear; try done.
  intros. by constructor.
Qed.

Lemma parse_unresolved content :
  Forall (λ c, is_resolved c = false) (parse_conflict_markers content).
Proof. apply (parse_at_unresolved 0 (Py.splitlines content) 0). Qed.

Lemma parse_no_start content :
  none_of is_start (Py.splitlines content) = true →
  parse_conflict_markers content = [].
Proof.
  intros H. unfold parse_conflict_markers, parse_lines.
  fold (parse_at 0 (Py.splitlines content) 0).
  rewrite <-(app_nil_r (Py.splitlines content)).
  by rewrite parse_at_plain.
Qed.

Lemma parse_doc text d :
  Py.splitlines text = doc_lines d → well_formed d = true →
  parse_conflict_markers text = regions d.
Proof.
  intros Hlines [Hbs Ht]%andb_prop.
  unfold parse_conflict_markers, parse_lines. rewrite Hlines.
  by apply parse_at_doc.
Qed.

(** ** Loading a file *)

(** X7. When the file cannot be read the regions, their backups and the
    working copy stay as they were, but the file is already taken as the
    current one; the status line says what went wrong. *)
Theorem load_failure_keeps_store w s repo file e :
  git_repo s = Some repo →
  read_text w (repo_path repo) file = Raises e →
  let s' := load_conflicted_file w s file in
  same_store s' s
  ∧ original_conflicts s' = original_conflicts s
  ∧ original_content s' = original_content s
  ∧ selected_conflict_index s' = selected_conflict_index s
  ∧ current_file s' = Some file
  ∧ get_value s' "status_text" = "Error loading file: " +:+ e.
Proof.
  intros Hrepo Hread. unfold load_conflicted_file. rewrite Hrepo. cbn zeta.
  rewrite Hread. unfold same_store, update_status, local_text.
  rewrite !get_value_set_value. simpl.
  split_and!; try done.
  unfold get_value, set_value. simpl. by rewrite lookup_insert_ne.
Qed.

(** X8. Right after a load the working copy and the store agree: the edit
    handler finds nothing to do. *)
Theorem load_then_edit_handler w s repo file text :
  git_repo s = Some repo →
  read_text w (repo_path repo) file = Returns text →
  on_text_edited (load_conflicted_file w s file)
  = load_conflicted_file w s file.
Proof.
  intros Hrepo Hread.
  destruct (load_conflicted_file_returns w s repo file text Hrepo Hread)
    as (Htext & _ & Hcs & _).
  unfold on_text_edited. fold (local_text (load_conflicted_file w s file)).
  rewrite Htext, Hcs.
  replace (git_repo (load_conflicted_file w s file)) with (Some repo).
  - by rewrite Nat.eqb_refl.
  - unfold load_conflicted_file. by rewrite Hrepo, Hread.
Qed.

(** X9. A successful load opens a session: the file reads as the text kept,
    the backups are those of the regions, which are unresolved, have
    distinct ids and their markers in order. *)
Theorem load_opens_session w s repo file text :
  git_repo s = Some repo →
  read_text w (repo_path repo) file = Returns text →
  let s' := load_conflicted_file w s file in
  in_session w s' ∧ store_ordered s'
  ∧ original_conflicts s' = map backup (current_conflicts s')
  ∧ Forall (λ c, is_resolved c = false) (current_conflicts s').
Proof.
  intros Hrepo Hread s'. split_and!.
  - by eapply load_in_session.
  - by eapply load_store_ordered.
  - destruct (load_conflicted_file_returns w s repo file text Hrepo Hread)
      as (_ & _ & Hcs & Horig).
    fold s' in Hcs, Horig. by rewrite Hcs, Horig.
  - destruct (load_conflicted_file_returns w s repo file text Hrepo Hread)
      as (_ & _ & Hcs & _).
    fold s' in Hcs. rewrite Hcs. apply parse_unresolved.
Qed.

(** ** Resolving the blocks of a document *)

Lemma slice_to_app {A} (l1 l2 : list A) :
  Py.slice_to (l1 ++ l2) (Z.of_nat (length l1)) = l1.
Proof.
  unfold Py.slice_to. destruct (Z.of_nat (length l1) <? 0) eqn:E;
    [apply Z.ltb_lt in E; lia|].
  by rewrite Nat2Z.id, take_app_length.
Qed.

Lemma slice_from_app {A} (l1 l2 : list A) :
  Py.slice_from (l1 ++ l2) (Z.of_nat (length l1)) = l2.
Proof.
  unfold Py.slice_from. destruct (Z.of_nat (length l1) <? 0) eqn:E;
    [apply Z.ltb_lt in E; lia|].
  by rewrite Nat2Z.id, drop_app_length.
Qed.

Lemma chosen_for_region v off id b :
  chosen_for v (region_of off id b) = block_choice v b.
Proof. by destruct v. Qed.

(** Resolving the region of a block replaces the marker span by the lines
    kept of the block. *)
Lemma splice_block pre b rest v id :
  let c := region_of (length pre) id b in
  Py.slice_to (pre ++ block_lines b ++ rest) (start c)
    ++ chosen_for v c
    ++ Py.slice_from (pre ++ block_lines b ++ rest) (end_ c + 1)
  = (pre ++ blk_before b ++ block_choice v b) ++ rest.
Proof.
  intros c.
  assert (start c = Z.of_nat (length (pre ++ blk_before b))) as ->
    by (subst c; simpl; rewrite length_app; lia).
  assert (end_ c + 1 = Z.of_nat (length (pre ++ block_lines b))) as ->
    by (subst c; simpl; rewrite length_app, length_block_lines; lia).
  subst c. rewrite chosen_for_region.
  rewrite (app_assoc pre (block_lines b)), slice_from_app.
  replace ((pre ++ block_lines b) ++ rest)
    with ((pre ++ blk_before b)
          ++ (blk_start b :: (blk_local b ++ base_section b)
                ++ blk_middle b :: blk_remote b ++ [blk_end b]) ++ rest).
  - rewrite slice_to_app. by rewrite <-!app_assoc.
  - rewrite <-(app_assoc pre (block_lines b)), block_lines_app.
    by repeat (rewrite <-?app_assoc; simpl; f_equal).
Qed.

Lemma rebase_regions_from c lr off off' id bs :
  end_ c < Z.of_nat off → conflict_id c < id →
  Z.of_nat off' = Z.of_nat off - lr →
  map (rebase c lr) (regions_from off id bs) = regions_from off' id bs.
Proof.
  revert off off' id.
  induction bs as [|b bs IH]; intros off off' id Hend Hid Hoff; [done|].
  cbn [regions_from map]. f_equal.
  - unfold rebase, region_of. cbn [conflict_id start end_ ConflictMarkers_new].
    rewrite (proj2 (Z.eqb_neq _ _)) by lia.
    rewrite (proj2 (Z.gtb_gt _ _)) by lia.
    cbn [negb andb]. unfold ConflictMarkers_new. simpl. f_equal; lia.
  - apply IH; [lia..|]. rewrite !Nat2Z.inj_add. lia.
Qed.

Lemma Forall_block_choice (P : string → Prop) b v :
  Forall P (block_lines b) → Forall P (blk_before b ++ block_choice v b).
Proof.
  unfold block_lines, base_section, base_lines.
  rewrite !Forall_app, !Forall_cons, !Forall_app.
  intros (Hbefore & _ & Hloc & Hbase & Hrest).
  apply Forall_cons in Hrest as [_ [Hrem _]%Forall_app].
  split; [done|]. destruct v; simpl; [done..|]. unfold base_lines.
  destruct (blk_base b) as [[sep ls]|]; [|constructor].
  by inversion Hbase.
Qed.

Lemma rebase_regions_before c lr off id bs :
  start c ≤ end_ c →
  Z.of_nat (off + length (concat (map block_lines bs))) ≤ start c →
  map (rebase c lr) (regions_from off id bs) = regions_from off id bs.
Proof.
  intros Hc. revert off id.
  induction bs as [|b bs IH]; intros off id Hoff; [done|].
  cbn [regions_from map]. cbn [map concat] in Hoff.
  rewrite length_app in Hoff. f_equal.
  - apply rebase_not_later. unfold region_of. simpl.
    rewrite length_block_lines in Hoff. lia.
  - apply IH. lia.
Qed.

Lemma regions_from_app off id bs1 bs2 :
  regions_from off id (bs1 ++ bs2)
  = regions_from off id bs1
    ++ regions_from (off + length (concat (map block_lines bs1)))
         (id + Z.of_nat (length bs1)) bs2.
Proof.
  revert off id. induction bs1 as [|b bs1 IH]; intros off id.
  - simpl. by rewrite Nat.add_0_r, Z.add_0_r.
  - cbn [app regions_from map concat length]. rewrite IH, length_app.
    f_equal. f_equal. f_equal; lia.
Qed.

Section Merge.

Variable unified_diff : list string → list string → nat → list string.

Lemma resolve_block_step s pre k b bs tl v :
  blocks_pending s pre k (b :: bs) tl →
  let c := region_of (length pre) (Z.of_nat k) b in
  let s' := _resolve_single_conflict unified_diff s k v in
  current_conflicts s !! k = Some c
  ∧ resolve_turn unified_diff v s k = s'
  ∧ current_conflicts s'
    = map (rebase (mark_resolved_with c v (chosen_for v c) (rejected_for v c))
             (lines_removed_by c (chosen_for v c)))
          (<[k := mark_resolved_with c v (chosen_for v c) (rejected_for v c)]>
             (current_conflicts s))
  ∧ local_text s'
    = Py.join_lines
        ((pre ++ blk_before b ++ block_choice v b)
         ++ concat (map block_lines bs) ++ tl)
  ∧ drop (S k) (current_conflicts s')
    = regions_from (length (pre ++ blk_before b ++ block_choice v b))
        (Z.of_nat (S k)) bs.
Proof.
  intros (Hlines & Hdrop) c s'.
  assert (current_conflicts s !! k = Some c) as Hk.
  { rewrite <-(Nat.add_0_r k), <-lookup_drop, Hdrop. done. }
  destruct (resolve_unfold unified_diff s k v c Hk) as (Hcs & Htext & _).
  fold s' in Hcs, Htext.
  split_and!; [done| |done| |].
  - unfold resolve_turn. by rewrite Hk.
  - rewrite Htext, Hlines. cbn [map concat]. rewrite <-app_assoc.
    by rewrite (splice_block pre b _ v (Z.of_nat k)).
  - rewrite Hcs.
    change (map ?f ?l) with (f <$> l) at 1. rewrite <-fmap_drop.
    rewrite drop_insert_lt by lia.
    replace (drop (S k) (current_conflicts s))
      with (regions_from (length pre + length (block_lines b))
              (Z.of_nat k + 1) bs).
    2:{ replace (S k) with (k + 1)%nat by lia.
        rewrite <-drop_drop, Hdrop. done. }
    replace (Z.of_nat (S k)) with (Z.of_nat k + 1) by lia.
    apply rebase_regions_from.
    + subst c. simpl. rewrite length_block_lines. lia.
    + subst c. simpl. lia.
    + subst c. unfold lines_removed_by. rewrite chosen_for_region. simpl.
      rewrite !length_app, length_block_lines. lia.
Qed.

Lemma resolve_block_resolved s k v c :
  current_conflicts s !! k = Some c →
  (∀ j cj, (j < k)%nat → current_conflicts s !! j = Some cj →
           is_resolved cj = true) →
  ∀ j cj, (j < S k)%nat →
          current_conflicts (_resolve_single_conflict unified_diff s k v) !! j
          = Some cj →
          is_resolved cj = true.
Proof.
  intros Hk Hdone j cj Hj.
  destruct (resolve_unfold unified_diff s k v c Hk) as (-> & _).
  change (map ?f ?l) with (f <$> l). rewrite list_lookup_fmap.
  destruct (decide (j = k)) as [->|Hjk].
  - rewrite list_lookup_insert_eq by (by apply lookup_lt_Some in Hk).
    simpl. intros [= <-]. by rewrite rebase_is_resolved.
  - rewrite list_lookup_insert_ne by done.
    destruct (current_conflicts s !! j) as [cj'|] eqn:Hcj; [|done].
    simpl. intros [= <-]. rewrite rebase_is_resolved.
    apply (Hdone j); [lia|done].
Qed.

Lemma resolve_blocks v bs : ∀ s pre k b tl,
  blocks_pending s pre k (b :: bs) tl →
  (∀ j c, (j < k)%nat → current_conflicts s !! j = Some c →
          is_resolved c = true) →
  length (current_conflicts s) = (k + S (length bs))%nat →
  Forall (λ l, one_line l = true)
    (pre ++ concat (map block_lines (b :: bs)) ++ tl) →
  last (concat (map block_lines (b :: bs)) ++ tl) ≠ Some "" →
  let s' :=
    fold_left (resolve_turn unified_diff v) (seq k (S (length bs))) s in
  local_text s'
  = Py.join_lines
      (pre ++ concat (map (λ b, blk_before b ++ block_choice v b) (b :: bs))
       ++ tl)
  ∧ Forall (λ c, is_resolved c = true) (current_conflicts s').
Proof.
  induction bs as [|b' bs IH];
    intros s pre k b tl Hpending Hdone Hlen Hone Hlast.
  - destruct (resolve_block_step s pre k b [] tl v Hpending)
      as (Hk & Hturn & _ & Htext & _).
    cbn [length seq fold_left]. rewrite Hturn. split.
    + rewrite Htext. cbn [map concat app]. rewrite app_nil_r.
      by rewrite <-!app_assoc.
    + apply Forall_lookup. intros j c Hj.
      apply (resolve_block_resolved s k v _ Hk Hdone j c); [|done].
      apply lookup_lt_Some in Hj. rewrite resolve_length in Hj.
      simpl in Hlen. lia.
  - destruct (resolve_block_step s pre k b (b' :: bs) tl v Hpending)
      as (Hk & Hturn & _ & Htext & Hdrop).
    change (seq k (S (length (b' :: bs))))
      with (k :: seq (S k) (S (length bs))).
    cbn [fold_left]. rewrite Hturn.
    pose proof (resolve_block_resolved s k v _ Hk Hdone) as Hdone1.
    set (s1 := _resolve_single_conflict unified_diff s k v) in *.
    set (pre1 := pre ++ blk_before b ++ block_choice v b) in *.
    assert (Forall (λ l, one_line l = true)
              (pre1 ++ concat (map block_lines (b' :: bs)) ++ tl)) as Hone1.
    { clear -Hone. unfold pre1.
      change (concat (map block_lines (b :: b' :: bs)))
        with (block_lines b ++ concat (map block_lines (b' :: bs))) in Hone.
      rewrite !Forall_app in Hone.
      destruct Hone as (Hpre & (Hb & Hbs) & Htl).
      apply (Forall_block_choice _ b v), Forall_app in Hb as [? ?].
      rewrite !Forall_app. by split_and!. }
    assert (last (concat (map block_lines (b' :: bs)) ++ tl) ≠ Some "")
      as Hlast1.
    { clear -Hlast. intros H. apply Hlast.
      change (concat (map block_lines (b :: b' :: bs)))
        with (block_lines b ++ concat (map block_lines (b' :: bs))).
      by rewrite <-app_assoc, last_app, H. }
    destruct (IH s1 pre1 (S k) b' tl) as [Hfinal Hall]; try done.
    + split; [|done]. rewrite Htext.
      apply splitlines_join_lines; [done|].
      rewrite last_app.
      destruct (last (concat (map block_lines (b' :: bs)) ++ tl)) eqn:E;
        [done|].
      apply last_None, (f_equal length) in E.
      cbn [map concat] in E. rewrite !length_app, length_block_lines in E.
      simpl in E. lia.
    + unfold s1. rewrite resolve_length, Hlen. simpl. lia.
    + split; [|done]. rewrite Hfinal. unfold pre1. cbn [map concat].
      by rewrite <-!app_assoc.
Qed.

(** X10. Accepting a variant for one region of a file just loaded replaces
    the lines of its block, markers included, by the lines kept; the
    regions before it stay, the regions after it move along with their
    blocks. *)
Theorem resolve_replaces_block w s repo file text bs1 b bs2 tl v :
  git_repo s = Some repo →
  read_text w (repo_path repo) file = Returns text →
  Py.splitlines text = doc_lines (mkDoc (bs1 ++ b :: bs2) tl) →
  well_formed (mkDoc (bs1 ++ b :: bs2) tl) = true →
  let k := length bs1 in
  let s' :=
    accept_conflict unified_diff v
      (on_conflict_selected (load_conflicted_file w s file) (Z.of_nat k)) in
  let lines_before := concat (map block_lines bs1) in
  let lines_kept := blk_before b ++ block_choice v b in
  local_text s'
  = Py.join_lines
      (lines_before ++ lines_kept
       ++ concat (map block_lines bs2) ++ tail_lines tl)
  ∧ take k (current_conflicts s') = regions_from 0 0 bs1
  ∧ drop (S k) (current_conflicts s')
    = regions_from (length (lines_before ++ lines_kept)) (Z.of_nat (S k)) bs2.
Proof.
  intros Hrepo Hread Hlines Hwf k s' lines_before lines_kept.
  destruct (load_conflicted_file_returns w s repo file text Hrepo Hread)
    as (Htext & _ & Hcs & _).
  rewrite (parse_doc text _ Hlines Hwf) in Hcs.
  set (s0 := load_conflicted_file w s file) in *.
  unfold regions, doc_lines in *. cbn [blocks doc_tail] in *.
  rewrite regions_from_app in Hcs. fold lines_before in Hcs.
  rewrite map_app, concat_app in Hlines. fold lines_before in Hlines.
  assert (length (regions_from 0 0 bs1) = k) as Hk1
    by apply length_regions_from.
  assert (blocks_pending s0 lines_before k (b :: bs2) (tail_lines tl))
    as Hpending.
  { split; [by rewrite Htext, Hlines, <-app_assoc|].
    rewrite Hcs, <-Hk1, drop_app_length, Hk1.
    rewrite Nat.add_0_l, Z.add_0_l. reflexivity. }
  destruct (resolve_block_step s0 lines_before k b bs2 (tail_lines tl) v
              Hpending) as (Hk & _ & Hcs1 & Htext1 & Hdrop1).
  destruct (select_accept_same_store unified_diff s0 k v) as [Hsame1 Hsame2].
  { apply lookup_lt_Some in Hk. done. }
  fold s' in Hsame1, Hsame2. rewrite Hsame1, Hsame2.
  split_and!.
  - rewrite Htext1. unfold lines_kept. by rewrite <-!app_assoc.
  - rewrite Hcs1. change (map ?f ?l) with (f <$> l) at 1.
    rewrite <-fmap_take, take_insert_ge by lia.
    rewrite Hcs, <-Hk1, take_app_length.
    apply rebase_regions_before.
    + simpl. lia.
    + simpl. unfold lines_before. lia.
  - rewrite Hdrop1. reflexivity.
Qed.

(** X11. Accepting one variant for every region of a file just loaded leaves
    the text of the file with each block replaced by the lines kept of
    it, and every region resolved. *)
Theorem resolve_all_merges w s repo file text d v :
  git_repo s = Some repo →
  read_text w (repo_path repo) file = Returns text →
  Py.splitlines text = doc_lines d → well_formed d = true →
  blocks d ≠ [] → last (doc_lines d) ≠ Some "" →
  let s' :=
    resolve_with_version unified_diff (load_conflicted_file w s file) v in
  local_text s' = Py.join_lines (merged_lines v d)
  ∧ Forall (λ c, is_resolved c = true) (current_conflicts s').
Proof.
  intros Hrepo Hread Hlines Hwf Hne Hlast s'.
  destruct (load_conflicted_file_returns w s repo file text Hrepo Hread)
    as (Htext & _ & Hcs & _).
  rewrite (parse_doc text d Hlines Hwf) in Hcs.
  set (s0 := load_conflicted_file w s file) in *.
  destruct d as [bs tl]. destruct bs as [|b bs]; [done|].
  unfold regions in Hcs. cbn [blocks] in *.
  destruct (resolve_blocks v bs s0 [] 0 b (tail_lines tl)) as [Hfinal Hall].
  - split; [by rewrite Htext, Hlines|by rewrite Hcs].
  - intros j c Hj. lia.
  - by rewrite Hcs, length_regions_from.
  - unfold doc_lines in Hlines. cbn [blocks doc_tail] in Hlines.
    cbn [app]. rewrite <-Hlines. apply splitlines_one_line.
  - done.
  - subst s'.
    assert (length (current_conflicts s0) = S (length bs)) as Hlen
      by (by rewrite Hcs, length_regions_from).
    assert (resolve_with_version unified_diff s0 v
            = update_status
                (fold_left (resolve_turn unified_diff v)
                   (seq 0 (S (length bs))) s0)
                ("Resolved all conflicts with " +:+ Resolution_str v)) as ->.
    { unfold resolve_with_version. rewrite <-Hlen.
      by destruct (current_conflicts s0). }
    split; [|done]. etrans; [|exact Hfinal].
    unfold update_status, local_text. by rewrite get_value_set_value.
Qed.

End Merge.

(** ** Resolving again, and what a resolution keeps *)

Section Sessions.

Variable unified_diff : list string → list string → nat → list string.

(** X12. On a file just loaded, when the lines left by a first accept do
    not end in an empty line: accepting the version again for the same
    region, now resolved, is not refused; the span of the old markers is
    cut out of the working copy once more, and takes with it the lines
    that follow the lines kept. *)
Theorem accept_again_removes_lines w s repo file text bs1 b bs2 tl v :
  git_repo s = Some repo →
  read_text w (repo_path repo) file = Returns text →
  Py.splitlines text = doc_lines (mkDoc (bs1 ++ b :: bs2) tl) →
  well_formed (mkDoc (bs1 ++ b :: bs2) tl) = true →
  last (concat (map block_lines bs1) ++ blk_before b ++ block_choice v b
        ++ concat (map block_lines bs2) ++ tail_lines tl) ≠ Some "" →
  let s1 :=
    accept_conflict unified_diff v
      (on_conflict_selected (load_conflicted_file w s file)
         (Z.of_nat (length bs1))) in
  local_text (accept_conflict unified_diff v s1)
  = Py.join_lines
      (concat (map block_lines bs1) ++ blk_before b ++ block_choice v b
       ++ drop (marker_span b - length (block_choice v b))
            (concat (map block_lines bs2) ++ tail_lines tl)).
Proof.
  intros Hrepo Hread Hlines Hwf Hlast s1.
  set (k := length bs1) in *.
  set (s0 := load_conflicted_file w s file) in *.
  set (pre := concat (map block_lines bs1)) in *.
  set (rest := concat (map block_lines bs2) ++ tail_lines tl) in *.
  destruct (load_conflicted_file_returns w s repo file text Hrepo Hread)
    as (Htext & _ & Hcs & _).
  fold s0 in Htext, Hcs.
  rewrite (parse_doc text _ Hlines Hwf) in Hcs.
  unfold regions, doc_lines in *. cbn [blocks doc_tail] in *.
  rewrite regions_from_app in Hcs. fold pre in Hcs.
  rewrite map_app, concat_app in Hlines. fold pre in Hlines.
  assert (length (regions_from 0 0 bs1) = k) as Hk1
    by apply length_regions_from.
  assert (blocks_pending s0 pre k (b :: bs2) (tail_lines tl)) as Hpending.
  { split; [by rewrite Htext, Hlines, <-app_assoc|].
    rewrite Hcs, <-Hk1, drop_app_length, Hk1.
    rewrite Nat.add_0_l, Z.add_0_l. reflexivity. }
  destruct (resolve_block_step unified_diff s0 pre k b bs2 (tail_lines tl) v
              Hpending) as (Hk & _ & Hcs1 & Htext1 & _).
  set (c := region_of (length pre) (Z.of_nat k) b) in *.
  assert (k < length (current_conflicts s0))%nat as Hklt
    by (by apply lookup_lt_Some in Hk).
  destruct (on_conflict_selected_valid s0 k Hklt) as [[Hcs0 Htext0] Hidx0].
  set (s0' := on_conflict_selected s0 (Z.of_nat k)) in *.
  assert (selection_valid s0' = true) as Hvalid0
    by (apply selection_valid_spec; rewrite Hidx0, Hcs0; lia).
  assert (s1 = _resolve_single_conflict unified_diff s0' k v) as Hs1.
  { subst s1. rewrite accept_conflict_valid by done.
    by rewrite Hidx0, Nat2Z.id. }
  assert (current_conflicts s0' !! k = Some c) as Hk' by (by rewrite Hcs0).
  destruct (resolve_unfold unified_diff s0' k v c Hk')
    as (Hcs1' & Htext1' & _ & _ & _ & _ & Hidx1).
  rewrite <-Hs1 in Hcs1', Htext1', Hidx1.
  destruct (resolve_same_store unified_diff s0' s0 k v) as [_ Hsame];
    [done|].
  rewrite <-Hs1, Htext1 in Hsame.
  set (c' := mark_resolved_with c v (chosen_for v c) (rejected_for v c)) in *.
  assert (current_conflicts s1 !! k = Some c') as Hk1'.
  { rewrite Hcs1'. change (map ?f ?l) with (f <$> l).
    rewrite list_lookup_fmap, list_lookup_insert_eq by (by rewrite Hcs0).
    simpl. by rewrite rebase_self. }
  assert (selection_valid s1 = true) as Hvalid1.
  { apply selection_valid_spec. rewrite Hidx1, Hidx0.
    apply lookup_lt_Some in Hk1'. lia. }
  rewrite accept_conflict_valid by done.
  rewrite Hidx1, Hidx0, Nat2Z.id.
  destruct (resolve_unfold unified_diff s1 k v c' Hk1') as (_ & -> & _).
  f_equal. rewrite Hsame.
  assert (chosen_for v c' = block_choice v b) as ->
    by (unfold c', c; by destruct v).
  assert (length (block_choice v b) ≤ marker_span b)%nat as Hspan.
  { unfold marker_span. rewrite length_block_lines.
    destruct v; simpl; try lia. unfold base_lines, base_section.
    destruct (blk_base b) as [[sep ls]|]; simpl; lia. }
  rewrite splitlines_join_lines.
  - assert (start c' = Z.of_nat (length (pre ++ blk_before b))) as ->
      by (unfold c', c; simpl; rewrite length_app; lia).
    assert (end_ c' + 1
            = Z.of_nat (length (pre ++ blk_before b ++ block_choice v b)
                        + (marker_span b - length (block_choice v b))))
      as ->.
    { unfold c', c, marker_span in *. simpl.
      rewrite !length_app. rewrite length_block_lines in *. lia. }
    unfold Py.slice_from.
    rewrite (proj2 (Z.ltb_ge _ _)) by lia. rewrite Nat2Z.id.
    rewrite <-drop_drop, drop_app_length. fold rest.
    replace ((pre ++ blk_before b ++ block_choice v b) ++ rest)
      with ((pre ++ blk_before b) ++ block_choice v b ++ rest)
      by (by rewrite <-!app_assoc).
    rewrite slice_to_app. by rewrite <-!app_assoc.
  - pose proof (splitlines_one_line text) as Hone.
    rewrite Hlines in Hone. cbn [map concat] in Hone.
    rewrite !Forall_app in Hone.
    destruct Hone as ((Hpre & Hb & Hbs2) & Htl).
    apply (Forall_block_choice _ b v), Forall_app in Hb as [? ?].
    rewrite !Forall_app. by split_and!.
  - by rewrite <-!app_assoc.
Qed.

Lemma resolve_turn_settles v s k j :
  unresolved_at (current_conflicts (resolve_turn unified_diff v s k)) j
  = if decide (j = k) then false else unresolved_at (current_conflicts s) j.
Proof.
  unfold resolve_turn.
  destruct (current_conflicts s !! k) as [c|] eqn:Hk.
  - destruct (is_resolved c) eqn:Hc.
    + case_decide; [|done]. subst j. unfold unresolved_at. by rewrite Hk, Hc.
    + case_decide as Hjk; [|by apply resolve_unresolved_at]. subst j.
      unfold unresolved_at.
      destruct (resolve_unfold unified_diff s k v c Hk) as (-> & _).
      change (map ?f ?l) with (f <$> l). rewrite list_lookup_fmap.
      rewrite list_lookup_insert_eq by (by apply lookup_lt_Some in Hk).
      simpl. by rewrite rebase_is_resolved.
  - case_decide; [|done]. subst j. unfold unresolved_at. by rewrite Hk.
Qed.

Lemma resolve_turns_settle v ks : ∀ s j,
  unresolved_at (current_conflicts s) j = false ∨ j ∈ ks →
  unresolved_at
    (current_conflicts (fold_left (resolve_turn unified_diff v) ks s)) j
  = false.
Proof.
  induction ks as [|k ks IH]; intros s j Hj.
  { destruct Hj as [Hj|Hj]; [done|]. by apply elem_of_nil in Hj. }
  cbn [fold_left]. apply IH.
  rewrite resolve_turn_settles. case_decide as Hjk; [by left|].
  destruct Hj as [Hj|Hj]; [by left|].
  apply elem_of_cons in Hj as [Hj|Hj]; [done|by right].
Qed.

Lemma resolve_turn_length v s k :
  length (current_conflicts (resolve_turn unified_diff v s k))
  = length (current_conflicts s).
Proof.
  unfold resolve_turn. repeat case_match; try done. apply resolve_length.
Qed.

Lemma resolve_turns_length v ks : ∀ s,
  length (current_conflicts (fold_left (resolve_turn unified_diff v) ks s))
  = length (current_conflicts s).
Proof.
  induction ks as [|k ks IH]; intros s; [done|].
  cbn [fold_left]. by rewrite IH, resolve_turn_length.
Qed.

Lemma resolve_with_version_settles s v j :
  unresolved_at (current_conflicts (resolve_with_version unified_diff s v)) j
  = false.
Proof.
  unfold resolve_with_version.
  destruct (current_conflicts s) as [|c0 cs] eqn:E.
  { unfold unresolved_at. by rewrite E. }
  rewrite <-E.
  change (current_conflicts (update_status ?x _)) with (current_conflicts x).
  destruct (decide (j < length (current_conflicts s))%nat) as [Hj|Hj].
  - apply resolve_turns_settle. right.
    apply list_elem_of_In, in_seq. lia.
  - unfold unresolved_at.
    rewrite (proj2 (lookup_ge_None _ _)); [done|].
    rewrite resolve_turns_length. lia.
Qed.

(** X13. Once every region is resolved, resolving them all again, with any
    version, changes neither the working copy nor the regions: the loop
    skips the regions that are resolved. *)
Theorem resolve_all_twice s v1 v2 :
  let s1 := resolve_with_version unified_diff s v1 in
  Forall (λ c, is_resolved c = true) (current_conflicts s1)
  ∧ same_store (resolve_with_version unified_diff s1 v2) s1.
Proof.
  intros s1. split.
  - apply Forall_lookup. intros j c Hj.
    pose proof (resolve_with_version_settles s v1 j) as H.
    fold s1 in H. unfold unresolved_at in H. rewrite Hj in H.
    by apply negb_false_iff.
  - destruct (resolve_with_version_fold unified_diff s1 v2) as [Hcs Htext].
    assert (unresolved_positions (current_conflicts s1) = []) as Hnone.
    { unfold unresolved_positions.
      induction (seq 0 (length (current_conflicts s1))) as [|j js IH];
        [done|].
      simpl. unfold s1 at 1. by rewrite resolve_with_version_settles. }
    rewrite Hnone in Hcs, Htext. done.
Qed.

Lemma resolve_in_session w s k v :
  in_session w s → in_session w (_resolve_single_conflict unified_diff s k v).
Proof.
  intros (repo & file & Hrepo & Hfile & Hread & Hlen).
  destruct (current_conflicts s !! k) as [c|] eqn:Hc.
  - destruct (resolve_unfold unified_diff s k v c Hc)
      as (_ & _ & Hrepo' & Hfile' & Horig' & Hcontent' & _).
    exists repo, file.
    rewrite Hrepo', Hfile', Horig', Hcontent', resolve_length. done.
  - unfold _resolve_single_conflict. rewrite Hc. by exists repo, file.
Qed.

Lemma resolve_store_ordered s k v :
  store_ordered s →
  store_ordered (_resolve_single_conflict unified_diff s k v).
Proof.
  intros Hord.
  destruct (decide (k < length (current_conflicts s))%nat) as [Hk|Hk].
  - destruct (select_accept_same_store unified_diff s k v Hk) as [Hcs' _].
    destruct (on_conflict_selected_valid s k Hk) as [[Hcs _] _].
    destruct (accept_store_ordered unified_diff v
                (on_conflict_selected s (Z.of_nat k))) as [Hids' Hord'].
    { unfold store_ordered. by rewrite Hcs. }
    unfold store_ordered. by rewrite <-Hcs'.
  - unfold _resolve_single_conflict.
    by rewrite (proj2 (lookup_ge_None _ _)) by lia.
Qed.

Lemma resolve_turns_session w v ks : ∀ s,
  in_session w s → store_ordered s →
  in_session w (fold_left (resolve_turn unified_diff v) ks s)
  ∧ store_ordered (fold_left (resolve_turn unified_diff v) ks s).
Proof.
  induction ks as [|k ks IH]; intros s Hs Hord; [done|].
  cbn [fold_left]. unfold resolve_turn at 2 4.
  destruct (current_conflicts s !! k) as [c|]; [|by apply IH].
  destruct (is_resolved c); [by apply IH|].
  apply IH; [by apply resolve_in_session|by apply resolve_store_ordered].
Qed.

(** X14. The resolutions keep the session: accepting a version for one region
    or for all of them leaves the file readable as the text kept, a
    backup for every region, the ids distinct and the markers of each
    region in order. *)
Theorem resolutions_keep_session w s v :
  in_session w s → store_ordered s →
  let s1 := accept_conflict unified_diff v s in
  let s2 := resolve_with_version unified_diff s v in
  (in_session w s1 ∧ store_ordered s1)
  ∧ (in_session w s2 ∧ store_ordered s2).
Proof.
  intros Hs Hord s1 s2. split.
  - split; [by apply accept_in_session|by apply accept_store_ordered].
  - subst s2. unfold resolve_with_version.
    destruct (current_conflicts s) as [|c0 cs]; [done|].
    destruct (resolve_turns_session w v (seq 0 (length (c0 :: cs))) s Hs Hord)
      as [Hs' Hord'].
    split; [exact Hs'|exact Hord'].
Qed.

End Sessions.

(** X15. With the preview switched off, a resolution leaves the pane at the
    text that says so. *)
Theorem preview_off_stays_off unified_diff s v :
  get_value
    (accept_conflict unified_diff v (toggle_rejection_preview s false))
    "rejection_preview"
  = "// Rejection preview disabled".
Proof.
  set (s0 := toggle_rejection_preview s false).
  assert (get_value s0 "rejection_preview" = "// Rejection preview disabled")
    as Hpane by (unfold s0, toggle_rejection_preview;
                 by rewrite get_value_set_value).
  assert (show_rejection_preview s0 = false) as Hshow by done.
  destruct (selection_valid s0) eqn:Hvalid;
    [|by rewrite accept_conflict_invalid].
  rewrite accept_conflict_valid by done.
  destruct (selection_valid_lookup s0 Hvalid) as [c Hc].
  unfold _resolve_single_conflict. rewrite Hc.
  destruct v; cbn zeta beta iota;
    unfold _show_rejection_preview, _update_working_copy_with_resolution,
      update_status;
    cbn [show_rejection_preview with_conflicts set_value];
    rewrite Hshow; cbn [negb];
    rewrite !get_value_set_value; simpl; exact Hpane.
Qed.

(** ** Reverting, restoring and editing *)

Lemma update_status_store s message :
  same_store (update_status s message) s.
Proof.
  unfold same_store, update_status, local_text.
  by rewrite get_value_set_value.
Qed.

(** X16. Reverting one region restores them all. *)
Theorem revert_restores_all w s :
  in_session w s →
  0 ≤ selected_conflict_index s < Z.of_nat (length (current_conflicts s)) →
  ∃ s', revert_conflict w s = Some s'
        ∧ same_store s' (restore_all_conflicts w s)
        ∧ local_text s' = original_content s
        ∧ Forall (λ c, is_resolved c = false) (current_conflicts s').
Proof.
  intros (repo & file & Hrepo & Hfile & Hread & Hlen) Hsel.
  apply selection_valid_spec in Hsel as Hvalid.
  set (k := Z.to_nat (selected_conflict_index s)).
  destruct (lookup_lt_is_Some_2 (current_conflicts s) k) as [c Hc]; [lia|].
  destruct (lookup_lt_is_Some_2 (original_conflicts s) k) as [o Ho]; [lia|].
  unfold revert_conflict, restore_all_conflicts.
  rewrite Hvalid. fold k. rewrite Hc, Ho.
  change (current_file (with_conflicts s ?cs)) with (current_file s).
  rewrite Hfile. eexists. split; [done|].
  set (s1 := with_conflicts s (<[k:=mark_unresolved c]> (current_conflicts s))).
  destruct (load_conflicted_file_returns w s1 repo file (original_content s))
    as (Htext1 & _ & Hcs1 & _); [done..|].
  destruct (load_conflicted_file_returns w s repo file (original_content s))
    as (Htext & _ & Hcs & _); [done..|].
  split_and!.
  - unfold same_store, update_status, local_text in *.
    rewrite !get_value_set_value. simpl. by rewrite Hcs1, Hcs, Htext1, Htext.
  - unfold update_status, local_text in *.
    by rewrite get_value_set_value.
  - change (current_conflicts (update_status ?x _))
      with (current_conflicts x).
    rewrite Hcs1.
    apply parse_unresolved.
Qed.

(** X17. A region typed into the working copy has no backup: once the edit
    handler has taken it into the store, reverting it raises. *)
Theorem revert_without_backup_raises w s repo typed k :
  git_repo s = Some repo →
  length (parse_conflict_markers typed) ≠ length (current_conflicts s) →
  (length (original_conflicts s) ≤ k
   < length (parse_conflict_markers typed))%nat →
  revert_conflict w
    (on_conflict_selected
       (on_text_edited (set_value s "local_text" typed)) (Z.of_nat k))
  = None.
Proof.
  intros Hrepo Hdiff Hk.
  assert (on_text_edited (set_value s "local_text" typed)
          = update_status
              (with_conflicts (set_value s "local_text" typed)
                 (parse_conflict_markers typed))
              "Content manually edited - conflict list updated") as ->.
  { unfold on_text_edited. rewrite get_value_set_value. simpl.
    rewrite Hrepo.
    by rewrite (proj2 (Nat.eqb_neq _ _) Hdiff). }
  set (s1 := update_status _ _).
  assert (current_conflicts s1 = parse_conflict_markers typed) as Hcs1
    by done.
  assert (original_conflicts s1 = original_conflicts s) as Horig1 by done.
  destruct (on_conflict_selected_valid s1 k) as [[Hcs2 _] Hidx2];
    [rewrite Hcs1; lia|].
  set (s2 := on_conflict_selected s1 (Z.of_nat k)) in *.
  assert (original_conflicts s2 = original_conflicts s) as Horig2.
  { unfold s2, on_conflict_selected. rewrite Hcs1.
    destruct (parse_conflict_markers typed); [done|].
    cbn [selected_conflict_index with_selected].
    destruct (Z.of_nat k <? 0); [done|]. by case_match. }
  unfold revert_conflict.
  assert (selection_valid s2 = true) as ->
    by (apply selection_valid_spec; rewrite Hidx2, Hcs2, Hcs1; lia).
  rewrite Hidx2, Nat2Z.id, Horig2.
  rewrite (proj2 (lookup_ge_None (original_conflicts s) k)) by lia.
  by case_match.
Qed.

(** X18. In a session [clear_all_highlights] puts the text of the file back
    in the working copy, as [restore_all_conflicts] does, but leaves the
    regions as they are, resolved ones included. *)
Theorem clear_all_highlights_keeps_store w s :
  in_session w s →
  local_text (clear_all_highlights w s) = original_content s
  ∧ local_text (clear_all_highlights w s)
    = local_text (restore_all_conflicts w s)
  ∧ current_conflicts (clear_all_highlights w s) = current_conflicts s.
Proof.
  intros (repo & file & Hrepo & Hfile & Hread & Hlen).
  unfold clear_all_highlights, restore_all_conflicts.
  rewrite Hfile, Hrepo, Hread.
  destruct (load_conflicted_file_returns w s repo file (original_content s))
    as (Htext & _); [done..|].
  unfold update_status, local_text in *.
  rewrite !get_value_set_value. simpl. by rewrite Htext.
Qed.

(** X19. [on_text_edited] settles the store: a second call changes nothing. *)
Theorem on_text_edited_idempotent s :
  on_text_edited (on_text_edited s) = on_text_edited s.
Proof.
  set (remaining s :=
         match git_repo s with
         | Some _ => parse_conflict_markers (get_value s "local_text")
         | None => []
         end).
  assert (∀ s, length (remaining s) = length (current_conflicts s) →
               on_text_edited s = s) as Hsame.
  { intros s0 H. unfold on_text_edited. fold (remaining s0).
    by rewrite H, Nat.eqb_refl. }
  destruct (decide (length (remaining s) = length (current_conflicts s)))
    as [H|H].
  { by rewrite !(Hsame s H). }
  apply Hsame. unfold on_text_edited. fold (remaining s).
  rewrite (proj2 (Nat.eqb_neq _ _) H). cbn [negb].
  unfold remaining, update_status. by rewrite get_value_set_value.
Qed.

(** X20. Once the marker lines are removed the working copy parses to no
    region, and the edit handler empties the store. *)
Theorem remove_conflict_markers_clears s :
  let s' := remove_conflict_markers s in
  parse_conflict_markers (local_text s') = []
  ∧ current_conflicts (on_text_edited s') = [].
Proof.
  intros s'.
  assert (parse_conflict_markers (local_text s') = []) as Hparse.
  { subst s'. unfold remove_conflict_markers.
    fold (local_text s).
    destruct (String.eqb_spec (local_text s) "") as [Hempty|_].
    { by rewrite Hempty. }
    unfold update_status, local_text. rewrite !get_value_set_value. simpl.
    fold (local_text s). apply parse_no_start.
    set (cleaned := List.filter _ _).
    assert (Forall (λ l, is_start l = false) cleaned) as Hclean.
    { apply Forall_forall. intros l [_ Hl]%list_elem_of_In%filter_In.
      apply negb_true_iff in Hl. unfold is_marker in Hl.
      by destruct (is_start l). }
    assert (Forall (λ l, one_line l = true) cleaned) as Hone.
    { apply Forall_forall. intros l [Hl _]%list_elem_of_In%filter_In.
      pose proof (splitlines_one_line (local_text s)) as H.
      rewrite Forall_forall in H. by apply H, list_elem_of_In. }
    destruct (splitlines_join_prefix cleaned Hone) as [k Hk].
    rewrite Hk in Hclean. apply Forall_app in Hclean as [Hclean _].
    unfold none_of. apply forallb_forall. intros l Hl.
    rewrite Forall_forall in Hclean.
    by rewrite (Hclean l) by (by apply list_elem_of_In). }
  split; [done|].
  unfold on_text_edited. fold (local_text s'). rewrite Hparse.
  assert (length (match git_repo s' with
                  | Some _ => @nil ConflictMarkers
                  | None => []
                  end) = 0%nat) as Hzero by (by destruct (git_repo s')).
  destruct (current_conflicts s') as [|c cs] eqn:E.
  - rewrite Hzero. simpl. exact E.
  - rewrite Hzero. simpl. by destruct (git_repo s').
Qed.

(** ** Navigation *)

Lemma highlight_selected_valid s :
  selection_valid s = true →
  ∃ s', highlight_selected_conflict s = Some s'
        ∧ same_store s' s
        ∧ selected_conflict_index s' = selected_conflict_index s.
Proof.
  intros Hvalid. destruct (selection_valid_lookup s Hvalid) as [c Hc].
  apply selection_valid_spec in Hvalid.
  unfold highlight_selected_conflict.
  destruct (current_conflicts s) as [|c0 cs] eqn:E; [simpl in Hvalid; lia|].
  destruct (selected_conflict_index s <? 0) eqn:Hneg;
    [apply Z.ltb_lt in Hneg; lia|].
  rewrite Hc. eexists. split; [done|]. split; [|done].
  apply update_status_store.
Qed.

(** X21. From a valid selection the two navigation buttons move one region
    down or up, stop at the ends of the list, raise nothing and leave the
    Document and the regions alone. *)
Theorem navigation_stays_in_range s :
  0 ≤ selected_conflict_index s < Z.of_nat (length (current_conflicts s)) →
  let last_index := Z.of_nat (length (current_conflicts s)) - 1 in
  (∃ s', next_conflict s = Some s' ∧ same_store s' s
         ∧ selected_conflict_index s'
           = Z.min (selected_conflict_index s + 1) last_index)
  ∧ (∃ s', prev_conflict s = Some s' ∧ same_store s' s
           ∧ selected_conflict_index s'
             = Z.max (selected_conflict_index s - 1) 0).
Proof.
  intros Hsel last_index.
  assert (next_conflict s
          = if selected_conflict_index s <? last_index
            then highlight_selected_conflict
                   (with_selected s (selected_conflict_index s + 1))
            else Some s) as ->.
  { unfold next_conflict, last_index.
    destruct (current_conflicts s); [simpl in Hsel; lia|done]. }
  assert (prev_conflict s
          = if selected_conflict_index s >? 0
            then highlight_selected_conflict
                   (with_selected s (selected_conflict_index s - 1))
            else Some s) as ->.
  { unfold prev_conflict.
    destruct (current_conflicts s); [simpl in Hsel; lia|done]. }
  split.
  - destruct (selected_conflict_index s <? last_index) eqn:Hlt.
    + apply Z.ltb_lt in Hlt.
      destruct (highlight_selected_valid
                  (with_selected s (selected_conflict_index s + 1)))
        as (s' & -> & Hsame & Hidx).
      { apply selection_valid_spec. simpl. lia. }
      exists s'. split_and!; [done..|]. rewrite Hidx. simpl. lia.
    + apply Z.ltb_ge in Hlt. exists s. split_and!; [done..|]. lia.
  - destruct (selected_conflict_index s >? 0) eqn:Hgt.
    + apply Z.gtb_gt in Hgt.
      destruct (highlight_selected_valid
                  (with_selected s (selected_conflict_index s - 1)))
        as (s' & -> & Hsame & Hidx).
      { apply selection_valid_spec. simpl. lia. }
      exists s'. split_and!; [done..|]. rewrite Hidx. simpl. lia.
    + exists s. split_and!; [done..|].
      destruct (Z.gtb_spec (selected_conflict_index s) 0); [done|lia].
Qed.

(** X22. Going to the next region and back selects the region one started
    from. *)
Theorem next_then_prev s :
  0 ≤ selected_conflict_index s
    < Z.of_nat (length (current_conflicts s)) - 1 →
  ∃ s1 s2, next_conflict s = Some s1 ∧ prev_conflict s1 = Some s2
           ∧ same_store s2 s
           ∧ selected_conflict_index s2 = selected_conflict_index s.
Proof.
  intros Hsel.
  destruct (highlight_selected_valid
              (with_selected s (selected_conflict_index s + 1)))
    as (s1 & Hs1 & [Hcs1 Htext1] & Hidx1).
  { apply selection_valid_spec. simpl. lia. }
  simpl in Hcs1, Hidx1.
  destruct (highlight_selected_valid
              (with_selected s1 (selected_conflict_index s1 - 1)))
    as (s2 & Hs2 & [Hcs2 Htext2] & Hidx2).
  { apply selection_valid_spec. simpl. rewrite Hidx1, Hcs1. lia. }
  simpl in Hcs2, Hidx2.
  exists s1, s2. split_and!.
  - unfold next_conflict.
    destruct (current_conflicts s) as [|c0 cs] eqn:E; [simpl in Hsel; lia|].
    rewrite <-E in *.
    by rewrite (proj2 (Z.ltb_lt _ _)) by lia.
  - unfold prev_conflict. rewrite Hcs1.
    destruct (current_conflicts s) as [|c0 cs] eqn:E; [simpl in Hsel; lia|].
    by rewrite (proj2 (Z.gtb_gt _ _)) by lia.
  - split; [by rewrite Hcs2, Hcs1|].
    rewrite Htext2. exact Htext1.
  - rewrite Hidx2, Hidx1. lia.
Qed.

(** X23. [prev_conflict] does not check the selection against the store: when
    the selection lies beyond the regions, as after an edit that removed
    some, the region it moves to does not exist and the method raises. *)
Theorem prev_conflict_beyond_store_raises s :
  current_conflicts s ≠ [] →
  Z.of_nat (length (current_conflicts s)) < selected_conflict_index s →
  prev_conflict s = None.
Proof.
  intros Hne Hsel. unfold prev_conflict, highlight_selected_conflict.
  destruct (current_conflicts s) as [|c0 cs] eqn:E; [done|].
  rewrite (proj2 (Z.gtb_gt _ _)) by lia.
  cbn [current_conflicts selected_conflict_index with_selected].
  rewrite E, (proj2 (Z.ltb_ge _ _)) by lia.
  rewrite (proj2 (lookup_ge_None _ _)); [done|].
  rewrite <-E in *. lia.
Qed.

(** ** The diff helpers *)

Lemma digits_are_digits s : ∀ d r,
  HunkHeader.digits s = (d, r) →
  Forall (λ c, HunkHeader.is_digit c = true) (list_ascii_of_string d).
Proof.
  induction s as [|c s IH]; intros d r; simpl.
  - intros [= <- <-]. constructor.
  - destruct (HunkHeader.is_digit c) eqn:Hc.
    + destruct (HunkHeader.digits s) as [d' r'] eqn:E. intros [= <- <-].
      simpl. constructor; [done|]. by eapply IH.
    + intros [= <- <-]. constructor.
Qed.

Lemma new_range_digits s g :
  HunkHeader.new_range s = Some g →
  Forall (λ c, HunkHeader.is_digit c = true) (list_ascii_of_string g).
Proof.
  unfold HunkHeader.new_range. intros H.
  repeat case_match; simplify_eq. by eapply digits_are_digits.
Qed.

Lemma match_here_digits s g :
  HunkHeader.match_here s = Some g →
  Forall (λ c, HunkHeader.is_digit c = true) (list_ascii_of_string g).
Proof.
  unfold HunkHeader.match_here. intros H.
  repeat case_match; simplify_eq; by eapply new_range_digits.
Qed.

Lemma search_cons c s :
  HunkHeader.search (String c s)
  = match HunkHeader.match_here (String c s) with
    | Some g => Some g
    | None => HunkHeader.search s
    end.
Proof. reflexivity. Qed.

Lemma search_digits s g :
  HunkHeader.search s = Some g →
  Forall (λ c, HunkHeader.is_digit c = true) (list_ascii_of_string g).
Proof.
  induction s as [|c s IH]; [done|]. rewrite search_cons.
  - destruct (HunkHeader.match_here (String c s)) eqn:E; [|exact IH].
    intros [= <-]. by eapply match_here_digits.
Qed.

Lemma int_digits_nonneg d :
  Forall (λ c, HunkHeader.is_digit c = true) (list_ascii_of_string d) →
  0 ≤ HunkHeader.int d.
Proof.
  unfold HunkHeader.int. intros Hd.
  assert (∀ acc0, 0 ≤ acc0 →
            0 ≤ fold_left
                  (λ acc c, 10 * acc + (Z.of_nat (nat_of_ascii c) - 48))
                  (list_ascii_of_string d) acc0) as H; [|by apply H].
  induction Hd as [|c cs Hc Hcs IH]; intros acc0 Hacc; [done|].
  simpl. apply IH. unfold HunkHeader.is_digit in Hc.
  apply andb_prop in Hc as [Hc _]. apply Nat.leb_le in Hc. lia.
Qed.

Lemma line_diff_step_marks current_line highlights line :
  -1 ≤ current_line → Forall one_line_mark highlights →
  -1 ≤ (line_diff_step (current_line, highlights) line).1
  ∧ Forall one_line_mark (line_diff_step (current_line, highlights) line).2
  ∧ length (line_diff_step (current_line, highlights) line).2
    = (length highlights + (if is_change_line line then 1 else 0))%nat.
Proof.
  intros Hline Hmarks. unfold line_diff_step, is_change_line.
  destruct (Py.startswith line "@@") eqn:Hheader; cbn [negb andb].
  { destruct (HunkHeader.search line) as [g|] eqn:Hsearch; simpl;
      (split_and!; [|done|lia]); [|done].
    pose proof (int_digits_nonneg g (search_digits line g Hsearch)). lia. }
  destruct (Py.startswith line "-") eqn:Hminus; cbn [orb].
  { cbn [fst snd]. rewrite length_app. simpl.
    split_and!; [done| |done].
    apply Forall_app. split; [done|]. constructor; [|done].
    unfold one_line_mark. simpl. split_and!; auto. }
  destruct (Py.startswith line "+") eqn:Hplus.
  { cbn [fst snd]. rewrite length_app. simpl.
    split_and!; [lia| |done].
    apply Forall_app. split; [done|]. constructor; [|done].
    unfold one_line_mark. simpl. split_and!; auto. }
  destruct (Py.startswith line "\"); simpl; split_and!; done || lia.
Qed.

Lemma line_diff_fold_marks diff_lines : ∀ current_line highlights,
  -1 ≤ current_line → Forall one_line_mark highlights →
  let st := fold_left line_diff_step diff_lines (current_line, highlights) in
  Forall one_line_mark st.2
  ∧ length st.2
    = (length highlights + length (List.filter is_change_line diff_lines))%nat.
Proof.
  induction diff_lines as [|line diff_lines IH];
    intros current_line highlights Hline Hmarks.
  { simpl. split; [done|lia]. }
  cbn [fold_left List.filter].
  destruct (line_diff_step_marks current_line highlights line Hline Hmarks)
    as (Hline' & Hmarks' & Hlen').
  destruct (line_diff_step (current_line, highlights) line)
    as [current_line' highlights'].
  destruct (IH current_line' highlights' Hline' Hmarks') as [Hall Hlen].
  split; [done|]. rewrite Hlen. simpl in Hlen'. rewrite Hlen'.
  destruct (is_change_line line); simpl; lia.
Qed.

Lemma line_diff_fold_grows diff_lines : ∀ current_line highlights,
  ∃ more,
    (fold_left line_diff_step diff_lines (current_line, highlights)).2
    = highlights ++ more.
Proof.
  induction diff_lines as [|line diff_lines IH]; intros current_line highlights.
  { exists []. simpl. by rewrite app_nil_r. }
  cbn [fold_left].
  assert (∃ current_line' added,
            line_diff_step (current_line, highlights) line
            = (current_line', highlights ++ added)) as (cl & added & ->).
  { unfold line_diff_step.
    repeat case_match; eexists _, _;
      try reflexivity; by rewrite app_nil_r. }
  destruct (IH cl (highlights ++ added)) as [more ->].
  exists (added ++ more). by rewrite app_assoc.
Qed.

Lemma startswith_comment line : Py.startswith ("// " +:+ line) "// " = true.
Proof.
  unfold Py.startswith. rewrite !append_cons, !prefix_head. simpl.
  by destruct line.
Qed.

Lemma preview_fold_comments differ : ∀ in_diff preview_lines,
  ∃ body,
    (fold_left preview_step differ (in_diff, preview_lines)).2
    = preview_lines ++ body
    ∧ Forall (λ l, Py.startswith l "// " = true) body.
Proof.
  induction differ as [|line differ IH]; intros in_diff preview_lines.
  { exists []. simpl. by rewrite app_nil_r. }
  cbn [fold_left].
  assert (∃ in_diff' added,
            preview_step (in_diff, preview_lines) line
            = (in_diff', preview_lines ++ added)
            ∧ Forall (λ l, Py.startswith l "// " = true) added)
    as (d & added & -> & Hadded).
  { unfold preview_step.
    repeat case_match;
      try (eexists _, [_]; split;
           [reflexivity
           |constructor;
              [reflexivity || apply startswith_comment|constructor]]);
      exists in_diff, []; by rewrite app_nil_r. }
  destruct (IH d (preview_lines ++ added)) as (body & -> & Hbody).
  exists (added ++ body). split; [by rewrite app_assoc|].
  by apply Forall_app.
Qed.

Section Diffs.

Variable unified_diff : list string → list string → nat → list string.

(** X24. Whatever the diff holds, each highlight covers one line, counted from
    the line before the first at the lowest, is of type removed or added
    and has one line of content; there is one highlight for each line of
    the diff that starts with [-] or [+]. *)
Theorem generate_line_diff_marks chosen rejected :
  let highlights := generate_line_diff unified_diff chosen rejected in
  Forall one_line_mark highlights
  ∧ length highlights
    = match chosen, rejected with
      | [], [] => 0%nat
      | _, _ =>
          length (List.filter is_change_line
                    (unified_diff rejected chosen 0))
      end.
Proof.
  assert (∀ diff_lines,
            Forall one_line_mark
              (fold_left line_diff_step diff_lines (0, [])).2
            ∧ length (fold_left line_diff_step diff_lines (0, [])).2
              = length (List.filter is_change_line diff_lines)) as H.
  { intros diff_lines.
    destruct (line_diff_fold_marks diff_lines 0 []) as [Hall Hlen];
      [lia|constructor|].
    split; [done|]. by rewrite Hlen. }
  unfold generate_line_diff.
  destruct chosen, rejected; try apply H. by split.
Qed.

(** X25. The two lines that open a unified diff, [--- ] and [+++ ], are taken
    for a removed and an added line: they give the first two
    highlights. *)
Theorem file_header_lines_highlighted chosen rejected rest :
  chosen ≠ [] ∨ rejected ≠ [] →
  unified_diff rejected chosen 0 = "--- " :: "+++ " :: rest →
  ∃ more,
    generate_line_diff unified_diff chosen rejected
    = mkDiffHighlight 0 1 "removed" ["-- "]
        :: mkDiffHighlight 0 1 "added" ["++ "] :: more.
Proof.
  intros Hne Hdiff.
  assert (generate_line_diff unified_diff chosen rejected
          = (fold_left line_diff_step
               (unified_diff rejected chosen 0) (0, [])).2) as ->.
  { unfold generate_line_diff. destruct chosen, rejected; try done.
    by destruct Hne. }
  rewrite Hdiff. cbn [fold_left].
  change (line_diff_step (0, []) "--- ")
    with (0, [mkDiffHighlight 0 1 "removed" ["-- "]]).
  change (line_diff_step (0, [mkDiffHighlight 0 1 "removed" ["-- "]]) "+++ ")
    with (1, [mkDiffHighlight 0 1 "removed" ["-- "];
              mkDiffHighlight 0 1 "added" ["++ "]]).
  destruct (line_diff_fold_grows rest 1
              [mkDiffHighlight 0 1 "removed" ["-- "];
               mkDiffHighlight 0 1 "added" ["++ "]]) as [more ->].
  by exists more.
Qed.

(** X26. When there are rejected lines the preview is a list of comment
    lines between its two banners, whatever the diff holds. *)
Theorem rejection_preview_framed chosen rejected :
  rejected ≠ [] →
  ∃ body,
    create_rejection_preview unified_diff chosen rejected
    = Py.join_lines
        ("// ===== REJECTED ALTERNATIVE =====" :: body
         ++ ["// ===== END REJECTED ====="])
    ∧ Forall (λ l, Py.startswith l "// " = true) body.
Proof.
  intros Hne. unfold create_rejection_preview.
  destruct rejected as [|r rejected]; [done|].
  cbn zeta. case_bool_decide.
  - eexists. split; [reflexivity|]. constructor; [done|].
    apply Forall_forall. intros l Hl%list_elem_of_In%in_map_iff.
    destruct Hl as (l0 & <- & _). apply startswith_comment.
  - destruct (preview_fold_comments
                (unified_diff chosen (r :: rejected) 1) false
                ["// ===== REJECTED ALTERNATIVE ====="])
      as (body & -> & Hbody).
    by exists body.
Qed.

End Diffs.

Lemma digits_run d c rest :
  forallb HunkHeader.is_digit (list_ascii_of_string d) = true →
  HunkHeader.is_digit c = false →
  HunkHeader.digits (d +:+ String c rest) = (d, String c rest).
Proof.
  intros Hd Hc. induction d as [|a d IH].
  - change ("" +:+ ?x) with x. simpl. by rewrite Hc.
  - simpl in Hd. apply andb_prop in Hd as [Ha Hd].
    rewrite append_cons. simpl. by rewrite Ha, IH.
Qed.

Lemma is_number_digits d :
  is_number d = true →
  forallb HunkHeader.is_digit (list_ascii_of_string d) = true
  ∧ String.eqb d "" = false.
Proof.
  unfold is_number. intros [H1 H2]%andb_prop.
  split; [done|]. by apply negb_true_iff.
Qed.

Lemma new_range_header d3 d4 :
  is_number d3 = true →
  HunkHeader.new_range
    (String " " (String "+" (d3 +:+ optional_count d4 +:+ " @@")))
  = Some d3.
Proof.
  intros [Hd3 Hne]%is_number_digits. unfold HunkHeader.new_range.
  assert (∃ c rest, optional_count d4 +:+ " @@" = String c rest
                    ∧ HunkHeader.is_digit c = false)
    as (c & rest & -> & Hc).
  { destruct d4 as [d|]; simpl; [by exists ","%char, (d +:+ " @@")|].
    by exists " "%char, "@@". }
  by rewrite digits_run, Hne.
Qed.

Lemma match_here_header d1 d2 d3 d4 :
  is_number d1 = true → from_option is_number true d2 = true →
  is_number d3 = true →
  HunkHeader.match_here
    (String "-"
       (d1 +:+ optional_count d2
          +:+ String " " (String "+" (d3 +:+ optional_count d4 +:+ " @@"))))
  = Some d3.
Proof.
  intros [Hd1 Hne1]%is_number_digits Hd2 Hd3.
  unfold HunkHeader.match_here.
  destruct d2 as [d2|]; simpl in Hd2.
  - apply is_number_digits in Hd2 as [Hd2 Hne2].
    unfold optional_count at 1. rewrite !append_cons.
    change ("" +:+ ?x) with x.
    rewrite digits_run, Hne1 by done.
    rewrite digits_run, Hne2 by done.
    by rewrite new_range_header.
  - unfold optional_count at 1. change ("" +:+ ?x) with x.
    rewrite digits_run, Hne1 by done. cbv iota beta.
    by rewrite new_range_header.
Qed.

(** X27. A hunk header [@@ -a,b +c,d @@], with or without the two counts,
    sets the current line to [c - 1] and adds no highlight. *)
Theorem hunk_header_sets_line d1 d2 d3 d4 current_line highlights :
  is_number d1 = true → from_option is_number true d2 = true →
  is_number d3 = true →
  line_diff_step (current_line, highlights) (hunk_header d1 d2 d3 d4)
  = (HunkHeader.int d3 - 1, highlights).
Proof.
  intros Hd1 Hd2 Hd3. unfold line_diff_step.
  assert (Py.startswith (hunk_header d1 d2 d3 d4) "@@" = true) as ->
    by done.
  assert (HunkHeader.search (hunk_header d1 d2 d3 d4) = Some d3) as ->;
    [|done].
  unfold hunk_header.
  change (" +" +:+ ?x) with (String " " (String "+" x)).
  change ("@@ -" +:+ ?x)
    with (String "@" (String "@" (String " " (String "-" x)))).
  rewrite !search_cons.
  by rewrite match_here_header.
Qed.

Lemma drop_mark_highlight_line highlights i line :
  drop_mark (highlight_line highlights i line) = line.
Proof.
  unfold highlight_line.
  repeat case_match; reflexivity.
Qed.

Lemma highlight_line_one_line highlights i line :
  one_line line = true → one_line (highlight_line highlights i line) = true.
Proof.
  intros Hline. unfold highlight_line.
  repeat case_match; by apply one_line_append.
Qed.

Lemma highlight_line_not_empty highlights i line :
  highlight_line highlights i line ≠ "".
Proof. unfold highlight_line. by repeat case_match. Qed.

(** X28. The marks put on the lines of a text can be taken off again: the
    marked text has the lines of the text, each after a mark of four
    characters. *)
Theorem apply_highlights_keeps_lines text highlights :
  highlights ≠ [] →
  map drop_mark (Py.splitlines (apply_highlights_to_text text highlights))
  = Py.splitlines text.
Proof.
  intros Hne. destruct highlights as [|h hs]; [done|].
  unfold apply_highlights_to_text.
  set (hl := h :: hs). clearbody hl.
  pose proof (splitlines_one_line text) as Hone.
  set (lines := Py.splitlines text) in *. clearbody lines.
  rewrite splitlines_join_lines.
  - clear Hone.
    assert (∀ (f : nat → string → string),
              (∀ i l, drop_mark (f i l) = l) →
              map drop_mark (imap f lines) = lines) as H.
    { clear. induction lines as [|l ls IH]; intros f Hf; [done|].
      simpl. rewrite Hf. f_equal. apply IH. intros. apply Hf. }
    apply H. intros. apply drop_mark_highlight_line.
  - apply Forall_forall. intros l (i & l0 & -> & Hl0)%elem_of_lookup_imap.
    apply highlight_line_one_line.
    rewrite Forall_forall in Hone. apply Hone.
    by eapply list_elem_of_lookup_2.
  - intros Hlast. apply last_Some in Hlast as [l' Hl'].
    assert ("" ∈ imap (highlight_line hl) lines) as Hin
      by (rewrite Hl'; set_solver).
    apply elem_of_lookup_imap in Hin as (i & l0 & Heq & _).
    by apply (highlight_line_not_empty hl i l0).
Qed.

(** ** The further properties on the sample session *)

Lemma parse_needs_markers_witness :
  (none_of is_start (Py.splitlines Cases.unterminated) = true
   ∨ none_of is_middle (Py.splitlines Cases.unterminated) = true
   ∨ none_of is_end (Py.splitlines Cases.unterminated) = true)
  ∧ parse_conflict_markers Cases.unterminated = [].
Proof.
  assert (none_of is_start (Py.splitlines Cases.unterminated) = true
          ∨ none_of is_middle (Py.splitlines Cases.unterminated) = true
          ∨ none_of is_end (Py.splitlines Cases.unterminated) = true) as H
    by (right; right; reflexivity).
  split; [exact H|].
  exact (parse_needs_markers Cases.unterminated H).
Defined.

Lemma load_failure_keeps_store_witness :
  git_repo Sample.loaded = Some Sample.repo
  ∧ read_text Cases.unreadable (repo_path Sample.repo) "other.txt"
    = Raises "No such file or directory"
  ∧ same_store
      (load_conflicted_file Cases.unreadable Sample.loaded "other.txt")
      Sample.loaded
  ∧ current_file
      (load_conflicted_file Cases.unreadable Sample.loaded "other.txt")
    = Some "other.txt".
Proof.
  split; [reflexivity|]. split; [reflexivity|].
  destruct (load_failure_keeps_store Cases.unreadable Sample.loaded
              Sample.repo "other.txt" "No such file or directory"
              eq_refl eq_refl)
    as (Hsame & _ & _ & _ & Hfile & _).
  split; [exact Hsame|exact Hfile].
Defined.

Lemma load_then_edit_handler_witness :
  git_repo Sample.initial = Some Sample.repo
  ∧ read_text Sample.world (repo_path Sample.repo) Sample.file
    = Returns Sample.text
  ∧ on_text_edited Sample.loaded = Sample.loaded.
Proof.
  split; [reflexivity|]. split; [reflexivity|].
  exact (load_then_edit_handler Sample.world Sample.initial Sample.repo
           Sample.file Sample.text eq_refl eq_refl).
Defined.

Lemma load_opens_session_witness :
  git_repo Sample.initial = Some Sample.repo
  ∧ read_text Sample.world (repo_path Sample.repo) Sample.file
    = Returns Sample.text
  ∧ in_session Sample.world Sample.loaded
  ∧ store_ordered Sample.loaded.
Proof.
  split; [reflexivity|]. split; [reflexivity|].
  destruct (load_opens_session Sample.world Sample.initial Sample.repo
              Sample.file Sample.text eq_refl eq_refl)
    as (Hsession & Hordered & _).
  split; [exact Hsession|exact Hordered].
Defined.

Lemma resolve_replaces_block_witness :
  git_repo Sample.initial = Some Sample.repo
  ∧ read_text Sample.world (repo_path Sample.repo) Sample.file
    = Returns Sample.text
  ∧ Py.splitlines Sample.text
    = doc_lines (mkDoc ([Cases.first_block] ++ Cases.second_block :: [])
                   (Plain ["outro"]))
  ∧ well_formed (mkDoc ([Cases.first_block] ++ Cases.second_block :: [])
                   (Plain ["outro"])) = true
  ∧ local_text
      (accept_conflict WholeFileDiff.unified_diff res_base
         (on_conflict_selected Sample.loaded 1))
    = Py.join_lines
        ["intro"; "<<<<<<< HEAD"; "a"; "======="; "b"; ">>>>>>> branch";
         "between"; "d"; "outro"].
Proof.
  split; [reflexivity|]. split; [reflexivity|]. split; [reflexivity|].
  split; [reflexivity|].
  exact (proj1 (resolve_replaces_block WholeFileDiff.unified_diff
                  Sample.world Sample.initial Sample.repo Sample.file
                  Sample.text [Cases.first_block] Cases.second_block []
                  (Plain ["outro"]) res_base
                  eq_refl eq_refl eq_refl eq_refl)).
Defined.

Lemma resolve_all_merges_witness :
  git_repo Sample.initial = Some Sample.repo
  ∧ read_text Sample.world (repo_path Sample.repo) Sample.file
    = Returns Sample.text
  ∧ Py.splitlines Sample.text = doc_lines Sample.doc
  ∧ well_formed Sample.doc = true
  ∧ blocks Sample.doc ≠ []
  ∧ last (doc_lines Sample.doc) ≠ Some ""
  ∧ local_text
      (resolve_with_version WholeFileDiff.unified_diff Sample.loaded
         res_remote)
    = Py.join_lines ["intro"; "b"; "between"; "e"; "f"; "outro"].
Proof.
  assert (blocks Sample.doc ≠ []) as Hblocks by discriminate.
  assert (last (doc_lines Sample.doc) ≠ Some "") as Hlast
    by (vm_compute; discriminate).
  split; [reflexivity|]. split; [reflexivity|]. split; [reflexivity|].
  split; [reflexivity|]. split; [exact Hblocks|]. split; [exact Hlast|].
  exact (proj1 (resolve_all_merges WholeFileDiff.unified_diff Sample.world
                  Sample.initial Sample.repo Sample.file Sample.text
                  Sample.doc res_remote
                  eq_refl eq_refl eq_refl eq_refl Hblocks Hlast)).
Defined.

Lemma accept_again_removes_lines_witness :
  git_repo Sample.initial = Some Sample.repo
  ∧ read_text Sample.world (repo_path Sample.repo) Sample.file
    = Returns Sample.text
  ∧ Py.splitlines Sample.text
    = doc_lines (mkDoc ([] ++ Cases.first_block :: [Cases.second_block])
                   (Plain ["outro"]))
  ∧ well_formed (mkDoc ([] ++ Cases.first_block :: [Cases.second_block])
                   (Plain ["outro"])) = true
  ∧ local_text
      (accept_conflict WholeFileDiff.unified_diff res_local
         (accept_conflict WholeFileDiff.unified_diff res_local
            (on_conflict_selected Sample.loaded 0)))
    = Py.join_lines
        ["intro"; "a"; "d"; "======="; "e"; "f"; ">>>>>>> branch"; "outro"].
Proof.
  split; [reflexivity|]. split; [reflexivity|]. split; [reflexivity|].
  split; [reflexivity|].
  refine (accept_again_removes_lines WholeFileDiff.unified_diff
            Sample.world Sample.initial Sample.repo Sample.file
            Sample.text [] Cases.first_block [Cases.second_block]
            (Plain ["outro"]) res_local
            eq_refl eq_refl eq_refl eq_refl _).
  vm_compute. discriminate.
Defined.

Lemma resolutions_keep_session_witness :
  in_session Sample.world Sample.loaded
  ∧ store_ordered Sample.loaded
  ∧ in_session Sample.world
      (resolve_with_version WholeFileDiff.unified_diff Sample.loaded
         res_local)
  ∧ store_ordered
      (resolve_with_version WholeFileDiff.unified_diff Sample.loaded
         res_local).
Proof.
  assert (in_session Sample.world Sample.loaded) as Hsession.
  { exists Sample.repo, Sample.file. repeat split; reflexivity. }
  assert (store_ordered Sample.loaded) as Hordered.
  { split.
    - apply (bool_decide_unpack _). vm_compute. exact I.
    - repeat constructor; simpl; lia. }
  split; [exact Hsession|]. split; [exact Hordered|].
  exact (proj2 (resolutions_keep_session WholeFileDiff.unified_diff
                  Sample.world Sample.loaded res_local Hsession Hordered)).
Defined.

Lemma revert_restores_all_witness :
  in_session Sample.world Cases.accepted
  ∧ 0 ≤ selected_conflict_index Cases.accepted
      < Z.of_nat (length (current_conflicts Cases.accepted))
  ∧ ∃ s', revert_conflict Sample.world Cases.accepted = Some s'
          ∧ local_text s' = Sample.text
          ∧ Forall (λ c, is_resolved c = false) (current_conflicts s').
Proof.
  assert (in_session Sample.world Cases.accepted) as Hsession.
  { exists Sample.repo, Sample.file. repeat split; reflexivity. }
  split; [exact Hsession|]. split; [simpl; lia|].
  destruct (revert_restores_all Sample.world Cases.accepted Hsession)
    as (s' & Hrev & _ & Htext & Hall); [simpl; lia|].
  exists s'. split; [exact Hrev|]. split; [exact Htext|exact Hall].
Defined.

Lemma revert_without_backup_raises_witness :
  git_repo Sample.loaded = Some Sample.repo
  ∧ length (parse_conflict_markers Cases.typed)
    ≠ length (current_conflicts Sample.loaded)
  ∧ (length (original_conflicts Sample.loaded) ≤ 2
     < length (parse_conflict_markers Cases.typed))%nat
  ∧ revert_conflict Sample.world
      (on_conflict_selected
         (on_text_edited (set_value Sample.loaded "local_text" Cases.typed))
         (Z.of_nat 2))
    = None.
Proof.
  assert (length (parse_conflict_markers Cases.typed)
          ≠ length (current_conflicts Sample.loaded)) as Hdiff
    by (vm_compute; lia).
  assert (length (original_conflicts Sample.loaded) ≤ 2
          < length (parse_conflict_markers Cases.typed))%nat as Hk
    by (vm_compute; lia).
  split; [reflexivity|]. split; [exact Hdiff|]. split; [exact Hk|].
  exact (revert_without_backup_raises Sample.world Sample.loaded Sample.repo
           Cases.typed 2 eq_refl Hdiff Hk).
Defined.

Lemma clear_all_highlights_keeps_store_witness :
  in_session Sample.world Cases.accepted
  ∧ local_text (clear_all_highlights Sample.world Cases.accepted)
    = Sample.text
  ∧ current_conflicts (clear_all_highlights Sample.world Cases.accepted)
    = current_conflicts Cases.accepted.
Proof.
  assert (in_session Sample.world Cases.accepted) as Hsession.
  { exists Sample.repo, Sample.file. repeat split; reflexivity. }
  split; [exact Hsession|].
  destruct (clear_all_highlights_keeps_store Sample.world Cases.accepted
              Hsession) as (Htext & _ & Hstore).
  split; [exact Htext|exact Hstore].
Defined.

Lemma navigation_stays_in_range_witness :
  0 ≤ selected_conflict_index Sample.loaded
    < Z.of_nat (length (current_conflicts Sample.loaded))
  ∧ (∃ s', next_conflict Sample.loaded = Some s'
           ∧ selected_conflict_index s' = 1)
  ∧ (∃ s', prev_conflict Sample.loaded = Some s'
           ∧ selected_conflict_index s' = 0).
Proof.
  assert (0 ≤ selected_conflict_index Sample.loaded
            < Z.of_nat (length (current_conflicts Sample.loaded))) as H
    by (simpl; lia).
  split; [exact H|].
  destruct (navigation_stays_in_range Sample.loaded H)
    as [(s1 & Hnext & _ & Hidx1) (s2 & Hprev & _ & Hidx2)].
  split; [exists s1|exists s2]; (split; [assumption|]).
  - exact Hidx1.
  - exact Hidx2.
Defined.

Lemma next_then_prev_witness :
  0 ≤ selected_conflict_index Sample.loaded
    < Z.of_nat (length (current_conflicts Sample.loaded)) - 1
  ∧ ∃ s1 s2, next_conflict Sample.loaded = Some s1
             ∧ prev_conflict s1 = Some s2
             ∧ selected_conflict_index s2 = 0.
Proof.
  assert (0 ≤ selected_conflict_index Sample.loaded
            < Z.of_nat (length (current_conflicts Sample.loaded)) - 1) as H
    by (simpl; lia).
  split; [exact H|].
  destruct (next_then_prev Sample.loaded H)
    as (s1 & s2 & Hnext & Hprev & _ & Hidx).
  exists s1, s2. split; [exact Hnext|]. split; [exact Hprev|exact Hidx].
Defined.

Lemma prev_conflict_beyond_store_raises_witness :
  current_conflicts Cases.shrunk ≠ []
  ∧ Z.of_nat (length (current_conflicts Cases.shrunk))
    < selected_conflict_index Cases.shrunk
  ∧ prev_conflict Cases.shrunk = None.
Proof.
  assert (current_conflicts Cases.shrunk ≠ []) as Hne
    by (vm_compute; discriminate).
  assert (Z.of_nat (length (current_conflicts Cases.shrunk))
          < selected_conflict_index Cases.shrunk) as Hsel
    by (vm_compute; reflexivity).
  split; [exact Hne|]. split; [exact Hsel|].
  exact (prev_conflict_beyond_store_raises Cases.shrunk Hne Hsel).
Defined.

Lemma file_header_lines_highlighted_witness :
  (["b"] ≠ [] ∨ ["a"] ≠ [])
  ∧ WholeFileDiff.unified_diff ["a"] ["b"] 0
    = "--- " :: "+++ " :: ["@@ -1 +1 @@"; "-a"; "+b"]
  ∧ ∃ more,
      generate_line_diff WholeFileDiff.unified_diff ["b"] ["a"]
      = mkDiffHighlight 0 1 "removed" ["-- "]
          :: mkDiffHighlight 0 1 "added" ["++ "] :: more.
Proof.
  assert (["b"] ≠ ([] : list string) ∨ ["a"] ≠ ([] : list string)) as Hne
    by (left; discriminate).
  split; [exact Hne|]. split; [reflexivity|].
  exact (file_header_lines_highlighted WholeFileDiff.unified_diff
           ["b"] ["a"] ["@@ -1 +1 @@"; "-a"; "+b"] Hne eq_refl).
Defined.

Lemma rejection_preview_framed_witness :
  ["b"] ≠ []
  ∧ ∃ body,
      create_rejection_preview WholeFileDiff.unified_diff ["a"] ["b"]
      = Py.join_lines
          ("// ===== REJECTED ALTERNATIVE =====" :: body
           ++ ["// ===== END REJECTED ====="])
      ∧ Forall (λ l, Py.startswith l "// " = true) body.
Proof.
  assert (["b"] ≠ ([] : list string)) as Hne by discriminate.
  split; [exact Hne|].
  exact (rejection_preview_framed WholeFileDiff.unified_diff ["a"] ["b"]
           Hne).
Defined.

Lemma hunk_header_sets_line_witness :
  is_number "12" = true
  ∧ from_option is_number true (Some "3") = true
  ∧ is_number "40" = true
  ∧ line_diff_step (0, []) "@@ -12,3 +40 @@" = (39, []).
Proof.
  split; [reflexivity|]. split; [reflexivity|]. split; [reflexivity|].
  exact (hunk_header_sets_line "12" (Some "3") "40" None 0 []
           eq_refl eq_refl eq_refl).
Defined.

Lemma apply_highlights_keeps_lines_witness :
  [mkDiffHighlight 1 2 "added" ["b"]] ≠ []
  ∧ map drop_mark
      (Py.splitlines
         (apply_highlights_to_text Sample.text
            [mkDiffHighlight 1 2 "added" ["b"]]))
    = Sample.lines.
Proof.
  assert ([mkDiffHighlight 1 2 "added" ["b"]] ≠ []) as Hne by discriminate.
  split; [exact Hne|].
  exact (apply_highlights_keeps_lines Sample.text
           [mkDiffHighlight 1 2 "added" ["b"]] Hne).
Defined.
